(** * gemini-imagen-mcp: the [generate_image] tool pipeline

    A shallow embedding of the MCP server of [index.ts]: the argument
    validator [isValidGenerateImageArgs], the [ListTools] descriptor and the
    [CallTool] handler registered by [setupToolHandlers], together with the
    properties of the pipeline that the specification states.

    The handler is effectful: it calls the upstream image service once, reads
    the wall clock and writes files.  These effects are threaded through an
    explicit state and exception monad.  The collaborators that are not part of
    the repository (the upstream service, the clock, the base64 decoder of
    [Buffer.from] and the failure behaviour of [fs.writeFileSync]) are the
    fields of an environment record.  The diagnostic lines that the handler
    prints with [console.error] are left out: they change neither the result
    of a call, nor the request sent upstream, nor the files.

    The repository holds a second, earlier [index.ts] whose handler knows the
    members [prompt] and [numberOfImages] only; its persistence code is the
    same, and it is embedded in the module [Legacy]. *)

From Stdlib Require Import PrimFloat Ascii Strings.Byte.
From stdpp Require Import gmap strings list fin_maps pretty.

Local Set Warnings "-register-all".

(** ** JavaScript values *)

Module JS.

(** The values that reach the handler: what [JSON.parse] produces, plus
    [undefined] (an absent [arguments] member, or the result of reading a
    property that does not exist).  Numbers are IEEE doubles. *)
Inductive value : Type :=
  | VUndefined
  | VNull
  | VBool (b : bool)
  | VNum (x : float)
  | VStr (s : string)
  | VArr (items : list value)
  | VObj (props : gmap string value).

(** [typeof v] *)
Definition typeof (v : value) : string :=
  match v with
  | VUndefined => "undefined"
  | VNull => "object"
  | VBool _ => "boolean"
  | VNum _ => "number"
  | VStr _ => "string"
  | VArr _ => "object"
  | VObj _ => "object"
  end.

(** [ToBoolean]: the falsy values are [undefined], [null], [false], [+0],
    [-0], [NaN] and the empty string. *)
Definition truthy (v : value) : bool :=
  match v with
  | VUndefined => false
  | VNull => false
  | VBool b => b
  | VNum x => negb (PrimFloat.is_zero x || PrimFloat.is_nan x)
  | VStr s => negb (String.eqb s "")
  | VArr _ => true
  | VObj _ => true
  end.

(** [a || b] *)
Definition or_else (a b : value) : value := if truthy a then a else b.

(** [v === undefined] *)
Definition is_undefined (v : value) : bool :=
  match v with VUndefined => true | _ => false end.

(** [v !== null] *)
Definition is_not_null (v : value) : bool :=
  match v with VNull => false | _ => true end.

(** The element of an array stored under the property name [k], when [k] is
    the decimal spelling of one of its indices. *)
Fixpoint array_get (items : list value) (i : nat) (k : string) : value :=
  match items with
  | [] => VUndefined
  | v :: rest => if String.eqb (pretty i) k then v else array_get rest (S i) k
  end.

(** [v.k] for a property name [k] that is not inherited: the handler reads
    [prompt], [numberOfImages], [aspectRatio], [sampleImageSize] and
    [personGeneration], none of which is a member of [Object.prototype] or of
    [Array.prototype], nor the [length] of an array.  Reading a property of a
    primitive yields [undefined]; the validator never reads a property of
    [null] or [undefined], since both are excluded by the tests that precede
    the first read. *)
Definition get (v : value) (k : string) : value :=
  match v with
  | VObj props => default VUndefined (props !! k)
  | VArr items => array_get items 0 k
  | _ => VUndefined
  end.

End JS.

Import JS.

(** ** Argument validation *)

(** [isValidGenerateImageArgs]: a type test of the five known members. *)
Definition isValidGenerateImageArgs (args : value) : bool :=
  String.eqb (typeof args) "object" &&
  is_not_null args &&
  String.eqb (typeof (get args "prompt")) "string" &&
  (is_undefined (get args "numberOfImages")
   || String.eqb (typeof (get args "numberOfImages")) "number") &&
  (is_undefined (get args "aspectRatio")
   || String.eqb (typeof (get args "aspectRatio")) "string") &&
  (is_undefined (get args "sampleImageSize")
   || String.eqb (typeof (get args "sampleImageSize")) "string") &&
  (is_undefined (get args "personGeneration")
   || String.eqb (typeof (get args "personGeneration")) "string").


(** ** Errors *)

(** [ErrorCode] of the MCP SDK, with the JSON-RPC number of each code. *)
Inductive ErrorCode : Type :=
  | ConnectionClosed
  | RequestTimeout
  | ParseError
  | InvalidRequest
  | MethodNotFound
  | InvalidParams
  | InternalError.

Definition code_number (c : ErrorCode) : Z :=
  match c with
  | ConnectionClosed => -32000
  | RequestTimeout => -32001
  | ParseError => -32700
  | InvalidRequest => -32600
  | MethodNotFound => -32601
  | InvalidParams => -32602
  | InternalError => -32603
  end.

(** What a [throw] carries.  The handler distinguishes three kinds:
    [error instanceof McpError], otherwise [error instanceof Error], otherwise
    any other value, of which only [String(error)] is used.  An [McpError] is
    recorded by the two arguments of its constructor. *)
Inductive thrown : Type :=
  | McpError (code : ErrorCode) (message : string)
  | OtherError (message : string)
  | NonError (rendering : string).

Inductive outcome (A : Type) : Type :=
  | Returns (a : A)
  | Throws (e : thrown).
Arguments Returns {A} a.
Arguments Throws {A} e.

(** ** The upstream service and the other collaborators *)

Record Image := { imageBytes : option string }.
Record GeneratedImage := { image : option Image }.
Record GenerateImagesResponse :=
  { generatedImages : option (list GeneratedImage) }.

Record GenerateImagesParameters := {
  model : string;
  prompt : value;
  config : gmap string value;
}.

Record Env := {
  (** [await this.genAI.models.generateImages(params)] *)
  generateImages : GenerateImagesParameters → outcome GenerateImagesResponse;
  (** the value of the [k]-th evaluation of [Date.now()], in milliseconds *)
  Date_now : nat → Z;
  (** [Buffer.from(s, "base64")] on a string *)
  Buffer_from_base64 : string → list byte;
  (** [fs.writeFileSync(path, data)] on the current files: [Some m] when the
      write throws an [Error] with message [m] *)
  writeFileSync_error :
    gmap string (list byte) → string → list byte → option string;
}.

(** The state that the handler changes: the requests sent upstream so far, the
    number of clock readings taken, the files on disk, and the history of the
    completed writes, oldest first. *)
Record State := {
  upstream_calls : list GenerateImagesParameters;
  clock_reads : nat;
  files : gmap string (list byte);
  writes : list (string * list byte);
}.

(** ** The monad of the handler *)

Definition M (A : Type) : Type := State → outcome A * State.

Global Instance M_ret : MRet M := λ A a σ, (Returns a, σ).
Global Instance M_bind : MBind M := λ A B f m σ,
  match m σ with
  | (Returns a, σ') => f a σ'
  | (Throws e, σ') => (Throws e, σ')
  end.

Definition throw {A} (e : thrown) : M A := λ σ, (Throws e, σ).

(** [try { body } catch (error) { handler }] *)
Definition try_catch {A} (body : M A) (handler : thrown → M A) : M A := λ σ,
  match body σ with
  | (Returns a, σ') => (Returns a, σ')
  | (Throws e, σ') => handler e σ'
  end.

Fixpoint mapM {A B} (f : A → M B) (l : list A) : M (list B) :=
  match l with
  | [] => mret []
  | a :: rest => b ← f a; bs ← mapM f rest; mret (b :: bs)
  end.

(** Messages of the [TypeError]s of the runtime. *)
Definition msg_read_of_undefined : string :=
  "Cannot read properties of undefined (reading 'imageBytes')".
Definition msg_buffer_from_undefined : string :=
  "The first argument must be of type string or an instance of Buffer, ArrayBuffer, or Array or an Array-like Object. Received undefined".

(** ** The tool descriptor *)

Definition obj (l : list (string * value)) : value := VObj (list_to_map l).

(** The reply of the [ListTools] handler. *)
Definition listTools : value :=
  obj [("tools", VArr [
    obj [
      ("name", VStr "generate_image");
      ("description", VStr "Generate images using Google Gemini Imagen");
      ("inputSchema", obj [
        ("type", VStr "object");
        ("properties", obj [
          ("prompt", obj [
            ("type", VStr "string");
            ("description", VStr "The prompt for image generation")]);
          ("numberOfImages", obj [
            ("type", VStr "number");
            ("description", VStr "Number of images to generate (1-4)");
            ("minimum", VNum 1);
            ("maximum", VNum 4)]);
          ("aspectRatio", obj [
            ("type", VStr "string");
            ("description",
             VStr "Changes the aspect ratio of the generated image");
            ("enum", VArr [VStr "1:1"; VStr "3:4"; VStr "4:3"; VStr "9:16";
                           VStr "16:9"]);
            ("default", VStr "9:16")]);
          ("sampleImageSize", obj [
            ("type", VStr "string");
            ("description",
             VStr "The size of the generated image (Standard and Ultra models only)");
            ("enum", VArr [VStr "1K"; VStr "2K"]);
            ("default", VStr "2K")]);
          ("personGeneration", obj [
            ("type", VStr "string");
            ("description",
             VStr "Allow the model to generate images of people");
            ("enum", VArr [VStr "dont_allow"; VStr "allow_adult";
                           VStr "allow_all"]);
            ("default", VStr "allow_all")])]);
        ("required", VArr [VStr "prompt"])])]])].

(** ** The [CallTool] handler *)

Record TextContent := { type : string; text : string }.
Record CallToolResult := { content : list TextContent }.

(** The file name template [/tmp/generated_image_${Date.now()}_${i}.png]. *)
Definition file_path (t : Z) (i : nat) : string :=
  "/tmp/generated_image_" +:+ pretty t +:+ "_" +:+ pretty i +:+ ".png".

Section Handler.
Context (E : Env).

Definition call_generateImages (params : GenerateImagesParameters)
  : M GenerateImagesResponse := λ σ,
  (generateImages E params,
   {| upstream_calls := upstream_calls σ ++ [params];
      clock_reads := clock_reads σ;
      files := files σ;
      writes := writes σ |}).

Definition read_Date_now : M Z := λ σ,
  (Returns (Date_now E (clock_reads σ)),
   {| upstream_calls := upstream_calls σ;
      clock_reads := S (clock_reads σ);
      files := files σ;
      writes := writes σ |}).

Definition writeFileSync (path : string) (data : list byte) : M () := λ σ,
  match writeFileSync_error E (files σ) path data with
  | Some m => (Throws (OtherError m), σ)
  | None =>
      (Returns (),
       {| upstream_calls := upstream_calls σ;
          clock_reads := clock_reads σ;
          files := <[path := data]> (files σ);
          writes := writes σ ++ [(path, data)] |})
  end.

(** [generatedImage.image.imageBytes] *)
Definition read_imageBytes (g : GeneratedImage) : M (option string) :=
  match image g with
  | Some img => mret (imageBytes img)
  | None => throw (OtherError msg_read_of_undefined)
  end.

(** [Buffer.from(imageData, "base64")] *)
Definition Buffer_from (imageData : option string) : M (list byte) :=
  match imageData with
  | Some s => mret (Buffer_from_base64 E s)
  | None => throw (OtherError msg_buffer_from_undefined)
  end.

(** The [for] loop: [imageBuffers] holds the buffers from index [i] on. *)
Fixpoint write_loop (imageBuffers : list (list byte)) (i : nat)
    (filePaths : list string) : M (list string) :=
  match imageBuffers with
  | [] => mret filePaths
  | buffer :: rest =>
      now ← read_Date_now;
      let filePath := file_path now i in
      _ ← writeFileSync filePath buffer;
      write_loop rest (S i) (filePaths ++ [filePath])
  end.

(** The configuration object sent upstream. *)
Definition build_config
    (numberOfImages aspectRatio personGeneration sampleImageSize : value)
  : gmap string value :=
  let config : gmap string value :=
    {[ "numberOfImages" := numberOfImages ]} in
  let config :=
    if truthy aspectRatio
    then <["aspectRatio" := aspectRatio]> config else config in
  let config :=
    if truthy personGeneration
    then <["personGeneration" := personGeneration]> config else config in
  let config :=
    if truthy sampleImageSize
    then <["sampleImageSize" := sampleImageSize]> config else config in
  config.

(** The block guarded by [try]. *)
Definition try_block
    (prompt numberOfImages aspectRatio sampleImageSize personGeneration :
       value) : M CallToolResult :=
  let config :=
    build_config numberOfImages aspectRatio personGeneration
      sampleImageSize in
  response ← call_generateImages
    {| model := "imagen-4.0-generate-001";
       prompt := prompt;
       config := config |};
  match generatedImages response with
  | None => throw (McpError InternalError "No images generated.")
  | Some [] => throw (McpError InternalError "No images generated.")
  | Some images =>
      generatedImages ← mapM read_imageBytes images;
      imageBuffers ← mapM Buffer_from generatedImages;
      filePaths ← write_loop imageBuffers 0 [];
      mret {| content :=
        [{| type := "text";
            text := "Generated images saved to: "
                    +:+ String.concat ", " filePaths |}] |}
  end.

(** The [catch] clause. *)
Definition catch_block (error : thrown) : M CallToolResult :=
  match error with
  | McpError _ _ => throw error
  | OtherError message =>
      throw (McpError InternalError
               ("Image generation failed: " +:+ message))
  | NonError rendering =>
      throw (McpError InternalError
               ("Image generation failed: " +:+ rendering))
  end.

(** The handler of [CallToolRequestSchema], applied to
    [request.params.name] and [request.params.arguments]. *)
Definition callTool (name : string) (arguments : value)
  : M CallToolResult :=
  if negb (String.eqb name "generate_image") then
    throw (McpError MethodNotFound ("Unknown tool: " +:+ name))
  else if negb (isValidGenerateImageArgs arguments) then
    throw (McpError InvalidParams "Invalid generate_image arguments")
  else
    let prompt := get arguments "prompt" in
    let numberOfImages :=
      or_else (get arguments "numberOfImages") (VNum 1) in
    let aspectRatio :=
      or_else (get arguments "aspectRatio") (VStr "9:16") in
    let sampleImageSize :=
      or_else (get arguments "sampleImageSize") (VStr "2K") in
    let personGeneration :=
      or_else (get arguments "personGeneration") (VStr "allow_adult") in
    try_catch
      (try_block prompt numberOfImages aspectRatio sampleImageSize
         personGeneration)
      catch_block.

End Handler.

(** ** The earlier handler *)

Module Legacy.

(** [isValidGenerateImageArgs] of [src/index.ts]. *)
Definition isValidGenerateImageArgs (args : value) : bool :=
  String.eqb (typeof args) "object" &&
  is_not_null args &&
  String.eqb (typeof (get args "prompt")) "string" &&
  (is_undefined (get args "numberOfImages")
   || String.eqb (typeof (get args "numberOfImages")) "number").

(** The block guarded by [try]. *)
Definition try_block (E : Env) (prompt numberOfImages : value)
  : M CallToolResult :=
  response ← call_generateImages E
    {| model := "imagen-4.0-generate-001";
       prompt := prompt;
       config := {[ "numberOfImages" := numberOfImages ]} |};
  match generatedImages response with
  | None => throw (McpError InternalError "No images generated.")
  | Some [] => throw (McpError InternalError "No images generated.")
  | Some images =>
      generatedImages ← mapM read_imageBytes images;
      imageBuffers ← mapM (Buffer_from E) generatedImages;
      filePaths ← write_loop E imageBuffers 0 [];
      mret {| content :=
        [{| type := "text";
            text := "Generated images saved to: "
                    +:+ String.concat ", " filePaths |}] |}
  end.

(** The handler of [CallToolRequestSchema]; its [catch] clause is the one of
    the later handler. *)
Definition callTool (E : Env) (name : string) (arguments : value)
  : M CallToolResult :=
  if negb (String.eqb name "generate_image") then
    throw (McpError MethodNotFound ("Unknown tool: " +:+ name))
  else if negb (isValidGenerateImageArgs arguments) then
    throw (McpError InvalidParams "Invalid generate_image arguments")
  else
    let prompt := get arguments "prompt" in
    let numberOfImages :=
      or_else (get arguments "numberOfImages") (VNum 1) in
    try_catch (try_block E prompt numberOfImages) catch_block.

(** The request that the handler builds from validated arguments. *)
Definition upstream_request (arguments : value) : GenerateImagesParameters :=
  {| model := "imagen-4.0-generate-001";
     prompt := get arguments "prompt";
     config :=
       {[ "numberOfImages" :=
            or_else (get arguments "numberOfImages") (VNum 1) ]} |}.

End Legacy.

(** ** Vocabulary of the properties *)

(** The state right after the upstream call. *)
Definition called (σ : State) (params : GenerateImagesParameters) : State :=
  {| upstream_calls := upstream_calls σ ++ [params];
     clock_reads := clock_reads σ;
     files := files σ;
     writes := writes σ |}.

(** The request that the handler builds from validated arguments. *)
Definition upstream_request (arguments : value) : GenerateImagesParameters :=
  {| model := "imagen-4.0-generate-001";
     prompt := get arguments "prompt";
     config :=
       build_config
         (or_else (get arguments "numberOfImages") (VNum 1))
         (or_else (get arguments "aspectRatio") (VStr "9:16"))
         (or_else (get arguments "personGeneration") (VStr "allow_adult"))
         (or_else (get arguments "sampleImageSize") (VStr "2K")) |}.

(** What follows the upstream call when it returned a non-empty list. *)
Definition persist (E : Env) (images : list GeneratedImage)
  : M CallToolResult :=
  generatedImages ← mapM read_imageBytes images;
  imageBuffers ← mapM (Buffer_from E) generatedImages;
  filePaths ← write_loop E imageBuffers 0 [];
  mret {| content :=
    [{| type := "text";
        text := "Generated images saved to: "
                +:+ String.concat ", " filePaths |}] |}.

(** A present member of the wrong primitive type. *)
Definition wrong_type (args : value) (k ty : string) : Prop :=
  get args k ≠ VUndefined ∧ typeof (get args k) ≠ ty.

(** The argument shapes that the validator is documented to reject. *)
Definition invalid_arguments (args : value) : Prop :=
  args = VNull
  ∨ typeof args ≠ "object"
  ∨ get args "prompt" = VUndefined
  ∨ typeof (get args "prompt") ≠ "string"
  ∨ wrong_type args "numberOfImages" "number"
  ∨ wrong_type args "aspectRatio" "string"
  ∨ wrong_type args "sampleImageSize" "string"
  ∨ wrong_type args "personGeneration" "string".

(** The names of the members that the handler reads. *)
Definition known_keys : list string :=
  ["prompt"; "numberOfImages"; "aspectRatio"; "sampleImageSize";
   "personGeneration"].

(** The names of the members of the configuration. *)
Definition config_keys : list string :=
  ["numberOfImages"; "aspectRatio"; "personGeneration"; "sampleImageSize"].

(** An optional member that is absent or holds a value of type [ty]. *)
Definition optional_ok (props : gmap string value) (k ty : string) : Prop :=
  props !! k = None ∨ ∃ v, props !! k = Some v ∧ typeof v = ty.

(** An object whose [prompt] is a string and whose known optional members,
    when present, have the right primitive type; nothing is asked of its
    other members. *)
Definition well_typed_fields (props : gmap string value) : Prop :=
  (∃ s, props !! "prompt" = Some (VStr s))
  ∧ optional_ok props "numberOfImages" "number"
  ∧ optional_ok props "aspectRatio" "string"
  ∧ optional_ok props "sampleImageSize" "string"
  ∧ optional_ok props "personGeneration" "string".

(** [sub] occurs in [s]. *)
Definition contains (s sub : string) : Prop :=
  ∃ before after, s = before +:+ sub +:+ after.

(** [s] has no occurrence of the character [c]. *)
Fixpoint free_of (c : ascii) (s : string) : bool :=
  match s with
  | EmptyString => true
  | String a rest => negb (Ascii.eqb a c) && free_of c rest
  end.

(** A character that is neither a decimal digit nor the minus sign. *)
Definition separator (c : ascii) : Prop :=
  c ≠ "-"%char ∧ ∀ x, pretty_N_char x ≠ c.

(** The names given by a run of the loop that starts at index [i] after [r]
    readings of the clock and writes [n] files. *)
Fixpoint loop_paths (E : Env) (r i n : nat) : list string :=
  match n with
  | 0 => []
  | S n' => file_path (Date_now E r) i :: loop_paths E (S r) (S i) n'
  end.

(** The descriptor of the first tool of the [ListTools] reply, and the
    member [field] of the schema that it advertises for the parameter [k]. *)
Definition tool_descriptor : value := get (get listTools "tools") "0".

Definition advertised (k field : string) : value :=
  get (get (get (get tool_descriptor "inputSchema") "properties") k) field.

(** ** A sample environment and sample calls *)

(** The state before any call. *)
Definition initial_state : State :=
  {| upstream_calls := []; clock_reads := 0; files := ∅; writes := [] |}.

(** A decoder of the standard base64 alphabet (and of the URL-safe one) for the
    sample environment: it skips the characters outside the alphabet and stops
    at the first padding sign. *)
Definition sextet (c : ascii) : option N :=
  let n := N_of_ascii c in
  if (65 <=? n)%N && (n <=? 90)%N then Some (n - 65)%N
  else if (97 <=? n)%N && (n <=? 122)%N then Some (n - 71)%N
  else if (48 <=? n)%N && (n <=? 57)%N then Some (n + 4)%N
  else if (n =? 43)%N || (n =? 45)%N then Some 62%N
  else if (n =? 47)%N || (n =? 95)%N then Some 63%N
  else None.

Fixpoint sextets (s : string) : list N :=
  match s with
  | EmptyString => []
  | String c rest =>
      if Ascii.eqb c "="%char then []
      else match sextet c with
           | Some n => n :: sextets rest
           | None => sextets rest
           end
  end.

Definition byte_of (n : N) : byte :=
  default Byte.x00 (Byte.of_N (n mod 256)%N).

Fixpoint octets (fuel : nat) (l : list N) : list byte :=
  match fuel, l with
  | S fuel', a :: b :: c :: d :: rest =>
      byte_of (a * 4 + b / 16) :: byte_of (b * 16 + c / 4)
        :: byte_of (c * 64 + d) :: octets fuel' rest
  | _, [a; b; c] => [byte_of (a * 4 + b / 16); byte_of (b * 16 + c / 4)]
  | _, [a; b] => [byte_of (a * 4 + b / 16)]
  | _, _ => []
  end.

Definition sample_base64 (s : string) : list byte :=
  let l := sextets s in octets (length l) l.

(** An upstream image that carries the base64 text [b]. *)
Definition payload (b : string) : GeneratedImage :=
  {| image := Some {| imageBytes := Some b |} |}.

(** An environment whose upstream answers every request with the outcome [r],
    whose clock shows [clock] and whose writes never fail. *)
Definition sample_env (r : outcome GenerateImagesResponse) (clock : nat → Z)
  : Env :=
  {| generateImages := λ _, r;
     Date_now := clock;
     Buffer_from_base64 := sample_base64;
     writeFileSync_error := λ _ _ _, None |}.

(** An environment whose disk is full as soon as it holds one file. *)
Definition disk_full_after_one : Env :=
  {| generateImages := λ _,
       Returns {| generatedImages := Some [payload "aGk="; payload "eW8="] |};
     Date_now := λ k, (1758733788860 + Z.of_nat k)%Z;
     Buffer_from_base64 := sample_base64;
     writeFileSync_error := λ fs _ _,
       if decide (fs = ∅) then None
       else Some "ENOSPC: no space left on device, write" |}.

(** A clock that advances by one millisecond between two readings. *)
Definition ticking (k : nat) : Z := 1758733788860 + Z.of_nat k.

(** Upstream outcomes: two images, none, and a failure. *)
Definition two_images : outcome GenerateImagesResponse :=
  Returns {| generatedImages := Some [payload "aGk="; payload "eW8="] |}.

Definition no_images : outcome GenerateImagesResponse :=
  Returns {| generatedImages := Some [] |}.

Definition quota_exceeded : outcome GenerateImagesResponse :=
  Throws (OtherError "429 quota exceeded").

(** Arguments of sample calls. *)
Definition a_cat : value :=
  obj [("prompt", VStr "A cat"); ("numberOfImages", VNum 2)].

Definition only_prompt : value := obj [("prompt", VStr "A cat")].

Definition numeric_prompt : value := obj [("prompt", VNum 7)].

Definition empty_prompt : value := obj [("prompt", VStr "")].

Definition falsy_fields : value :=
  obj [("prompt", VStr "A cat"); ("numberOfImages", VNum 0);
       ("aspectRatio", VStr "")].

Definition a_cat_props : gmap string value :=
  list_to_map [("prompt", VStr "A cat"); ("numberOfImages", VNum 2);
               ("seed", VNum 42); ("style", VNull)].

(** The result and the final state of the call [a_cat] when the upstream
    returns [two_images] and the clock is [ticking]. *)
Definition a_cat_result : CallToolResult :=
  {| content :=
       [{| type := "text";
           text := "Generated images saved to: /tmp/generated_image_1758733788860_0.png, /tmp/generated_image_1758733788861_1.png" |}] |}.

Definition a_cat_final_state : State :=
  {| upstream_calls := [upstream_request a_cat];
     clock_reads := 2;
     files :=
       {[ "/tmp/generated_image_1758733788860_0.png" := [Byte.x68; Byte.x69];
          "/tmp/generated_image_1758733788861_1.png" := [Byte.x79; Byte.x6f] ]};
     writes :=
       [("/tmp/generated_image_1758733788860_0.png", [Byte.x68; Byte.x69]);
        ("/tmp/generated_image_1758733788861_1.png", [Byte.x79; Byte.x6f])] |}.

(** ** Start-up *)

(** [process.env.K]: the variables of the environment are strings. *)
Definition env_get (env : gmap string string) (k : string) : value :=
  match env !! k with
  | Some s => VStr s
  | None => VUndefined
  end.

(** The first two statements of the constructor of [GeminiImagenServer],
    [constructor(config: Record<string, any> = {})]: the default of the
    parameter replaces an argument that is [undefined], the key is
    [config.GEMINI_API_KEY || process.env.GEMINI_API_KEY], and a falsy key
    is an [Error].  The outcome is the value of [this.GEMINI_API_KEY]; the
    statements that follow (the creation of the server and of the client,
    the registration of the handlers) are not part of this definition. *)
Definition constructor_GEMINI_API_KEY
    (config : value) (env : gmap string string) : outcome value :=
  let config := match config with VUndefined => obj [] | _ => config end in
  match config with
  | VNull =>
      Throws (OtherError
        "Cannot read properties of null (reading 'GEMINI_API_KEY')")
  | _ =>
      let GEMINI_API_KEY :=
        or_else (get config "GEMINI_API_KEY") (env_get env "GEMINI_API_KEY") in
      if negb (truthy GEMINI_API_KEY) then
        Throws (OtherError
          "GEMINI_API_KEY is required in config or environment variables.")
      else Returns GEMINI_API_KEY
  end.


(** ** Further vocabulary *)

(** The part of the state that persistence reads and changes. *)
Definition disk (σ : State) : nat * gmap string (list byte)
                              * list (string * list byte) :=
  (clock_reads σ, files σ, writes σ).

(** An image of the upstream response that carries no payload: its [image]
    is missing, or the [imageBytes] of its [image] is. *)
Definition lacks_payload (g : GeneratedImage) : Prop :=
  image g = None ∨ ∃ img, image g = Some img ∧ imageBytes img = None.

(** The argument shapes that the earlier validator rejects. *)
Definition legacy_invalid_arguments (args : value) : Prop :=
  args = VNull
  ∨ typeof args ≠ "object"
  ∨ typeof (get args "prompt") ≠ "string"
  ∨ wrong_type args "numberOfImages" "number".

(** The values that the advertised schema allows for the parameter [k]. *)
Definition enum_of (k : string) : list value :=
  match advertised k "enum" with
  | VArr items => items
  | _ => []
  end.

(** The names of the members whose values the schema enumerates. *)
Definition enumerated_keys : list string :=
  ["aspectRatio"; "sampleImageSize"; "personGeneration"].

(** ** Further sample calls *)

(** Arguments outside the advertised range and enumeration. *)
Definition out_of_range : value :=
  obj [("prompt", VStr "A cat"); ("numberOfImages", VNum 7);
       ("aspectRatio", VStr "21:9")].

(** An upstream response whose second image carries no payload. *)
Definition second_image_filtered : outcome GenerateImagesResponse :=
  Returns {| generatedImages :=
    Some [payload "aGk="; {| image := None |}] |}.

(** The names of the optional members. *)
Definition optional_keys : list string :=
  ["numberOfImages"; "aspectRatio"; "sampleImageSize"; "personGeneration"].

(** Arguments with a prompt and an [aspectRatio] that is [null]. *)
Definition null_aspect : value :=
  obj [("prompt", VStr "A cat"); ("aspectRatio", VNull)].

(** Arguments that the earlier validator accepts and the later one rejects. *)
Definition numeric_aspect : value :=
  obj [("prompt", VStr "A cat"); ("aspectRatio", VNum 1)].

(** The state after the disk filled up during the call [a_cat]. *)
Definition disk_full_state : State :=
  {| upstream_calls := [upstream_request a_cat];
     clock_reads := 2;
     files :=
       {[ "/tmp/generated_image_1758733788860_0.png"
            := [Byte.x68; Byte.x69] ]};
     writes :=
       [("/tmp/generated_image_1758733788860_0.png",
         [Byte.x68; Byte.x69])] |}.

(** The final state of the call [a_cat] to the earlier handler when the
    upstream returns [two_images] and the clock is [ticking]. *)
Definition legacy_final_state : State :=
  {| upstream_calls := [Legacy.upstream_request a_cat];
     clock_reads := 2;
     files := files a_cat_final_state;
     writes := writes a_cat_final_state |}.


(** * Properties *)

Ltac unfold_monad :=
  unfold mbind, M_bind, mret, M_ret, throw, try_catch in *.

Example sample_base64_hi : sample_base64 "aGk=" = [Byte.x68; Byte.x69].
Proof. vm_compute. reflexivity. Qed.

Section Pipeline.
Context (E : Env).

Lemma callTool_valid arguments :
  isValidGenerateImageArgs arguments = true →
  callTool E "generate_image" arguments =
  try_catch
    (try_block E (get arguments "prompt")
       (or_else (get arguments "numberOfImages") (VNum 1))
       (or_else (get arguments "aspectRatio") (VStr "9:16"))
       (or_else (get arguments "sampleImageSize") (VStr "2K"))
       (or_else (get arguments "personGeneration") (VStr "allow_adult")))
    (catch_block).
Proof. intros Hv. unfold callTool. rewrite Hv. reflexivity. Qed.

Lemma try_block_unfold arguments σ :
  try_block E (get arguments "prompt")
    (or_else (get arguments "numberOfImages") (VNum 1))
    (or_else (get arguments "aspectRatio") (VStr "9:16"))
    (or_else (get arguments "sampleImageSize") (VStr "2K"))
    (or_else (get arguments "personGeneration") (VStr "allow_adult")) σ =
  let σ1 := called σ (upstream_request arguments) in
  match generateImages E (upstream_request arguments) with
  | Throws e => (Throws e, σ1)
  | Returns response =>
      match generatedImages response with
      | None | Some [] =>
          (Throws (McpError InternalError "No images generated."), σ1)
      | Some images => persist E images σ1
      end
  end.
Proof.
  unfold try_block, persist. unfold_monad. unfold call_generateImages.
  fold (upstream_request arguments). fold (called σ (upstream_request arguments)).
  destruct (generateImages E (upstream_request arguments)) as [resp|e];
    [|reflexivity].
  destruct (generatedImages resp) as [[|g gs]|]; reflexivity.
Qed.

(** Reading the payloads and decoding them leaves the state as it is. *)
Lemma mapM_read_imageBytes_state images σ :
  snd (mapM read_imageBytes images σ) = σ.
Proof.
  induction images as [|g gs IH]; [reflexivity|]. simpl. unfold_monad.
  unfold read_imageBytes at 1. destruct (image g); simpl; [|reflexivity].
  specialize IH. destruct (mapM read_imageBytes gs σ) as [[bs|e] σ'];
    simpl in *; assumption.
Qed.

Lemma mapM_Buffer_from_state l σ :
  snd (mapM (Buffer_from E) l σ) = σ.
Proof.
  induction l as [|o l IH]; [reflexivity|]. simpl. unfold_monad.
  unfold Buffer_from at 1. destruct o; simpl; [|reflexivity].
  destruct (mapM (Buffer_from E) l σ) as [[bs|e] σ']; simpl in *; assumption.
Qed.

(** The loop sends nothing upstream. *)
Lemma write_loop_upstream_calls bufs i acc σ :
  upstream_calls (snd (write_loop E bufs i acc σ)) = upstream_calls σ.
Proof.
  revert i acc σ. induction bufs as [|b bs IH]; intros i acc σ;
    [reflexivity|].
  simpl. unfold_monad. unfold read_Date_now, writeFileSync. simpl.
  destruct (writeFileSync_error E (files σ) _ b); [reflexivity|].
  rewrite IH. reflexivity.
Qed.

Lemma persist_upstream_calls images σ :
  upstream_calls (snd (persist E images σ)) = upstream_calls σ.
Proof.
  unfold persist. unfold_monad.
  pose proof (mapM_read_imageBytes_state images σ) as H1.
  destruct (mapM read_imageBytes images σ) as [[l|e] σ1]; simpl in H1;
    subst σ1; [|reflexivity].
  pose proof (mapM_Buffer_from_state l σ) as H2.
  destruct (mapM (Buffer_from E) l σ) as [[bufs|e] σ2]; simpl in H2;
    subst σ2; [|reflexivity].
  pose proof (write_loop_upstream_calls bufs 0 [] σ) as H3.
  destruct (write_loop E bufs 0 [] σ) as [[ps|e] σ3]; simpl in *; exact H3.
Qed.

Lemma catch_block_state e σ : snd (catch_block e σ) = σ.
Proof. destruct e; reflexivity. Qed.

(** A validated call sends exactly one request upstream. *)
Lemma callTool_upstream_calls arguments σ :
  isValidGenerateImageArgs arguments = true →
  upstream_calls (snd (callTool E "generate_image" arguments σ)) =
  upstream_calls σ ++ [upstream_request arguments].
Proof.
  intros Hv. rewrite callTool_valid by assumption.
  unfold try_catch. rewrite try_block_unfold. cbv zeta.
  assert (∀ (r : outcome CallToolResult * State),
    upstream_calls (snd r) = upstream_calls σ ++ [upstream_request arguments] →
    upstream_calls (snd (let (o, σ') := r in
       match o with
       | Returns a => (Returns a, σ')
       | Throws e => catch_block e σ'
       end)) = upstream_calls σ ++ [upstream_request arguments]) as Hk.
  { intros [[a|e] σ'] H; simpl in *; [assumption|].
    rewrite catch_block_state. assumption. }
  destruct (generateImages E (upstream_request arguments)) as [resp|e].
  - destruct (generatedImages resp) as [[|g gs]|]; try reflexivity.
    apply Hk. rewrite persist_upstream_calls. reflexivity.
  - rewrite catch_block_state. reflexivity.
Qed.

End Pipeline.

(** ** Validation *)

Lemma typeof_string v : typeof v = "string" → ∃ s, v = VStr s.
Proof. destruct v; simpl; try discriminate. eauto. Qed.

Lemma typeof_number v : typeof v = "number" → ∃ x, v = VNum x.
Proof. destruct v; simpl; try discriminate. eauto. Qed.

Lemma is_undefined_true v : is_undefined v = true → v = VUndefined.
Proof. destruct v; simpl; try discriminate. reflexivity. Qed.

(** An optional member passes the validator when it is absent or of the
    expected type. *)
Lemma optional_test v ty :
  is_undefined v || String.eqb (typeof v) ty = true ↔
  v = VUndefined ∨ typeof v = ty.
Proof.
  rewrite orb_true_iff, String.eqb_eq. split.
  - intros [H|H]; [left; apply is_undefined_true, H|right; exact H].
  - intros [->|H]; [left; reflexivity|right; exact H].
Qed.

(** The validator, member by member. *)
Lemma isValidGenerateImageArgs_spec args :
  isValidGenerateImageArgs args = true ↔
  typeof args = "object" ∧ args ≠ VNull ∧
  typeof (get args "prompt") = "string" ∧
  (get args "numberOfImages" = VUndefined
   ∨ typeof (get args "numberOfImages") = "number") ∧
  (get args "aspectRatio" = VUndefined
   ∨ typeof (get args "aspectRatio") = "string") ∧
  (get args "sampleImageSize" = VUndefined
   ∨ typeof (get args "sampleImageSize") = "string") ∧
  (get args "personGeneration" = VUndefined
   ∨ typeof (get args "personGeneration") = "string").
Proof.
  unfold isValidGenerateImageArgs.
  rewrite !andb_true_iff, !optional_test, !String.eqb_eq.
  assert (is_not_null args = true ↔ args ≠ VNull) as ->.
  { destruct args; simpl; split; congruence. }
  tauto.
Qed.

Lemma invalid_arguments_rejected args :
  invalid_arguments args → isValidGenerateImageArgs args = false.
Proof.
  intros Hbad. apply not_true_is_false. rewrite isValidGenerateImageArgs_spec.
  intros (Hobj & Hnull & Hprompt & Hn & Ha & Hs & Hp).
  unfold invalid_arguments, wrong_type in Hbad.
  destruct Hbad as [H|[H|[H|[H|[[H1 H2]|[[H1 H2]|[[H1 H2]|[H1 H2]]]]]]]];
    try tauto.
  rewrite H in Hprompt. discriminate.
Qed.

(** C3: a call of [generate_image] whose arguments are [null], not an object,
    without a [prompt], with a [prompt] that is not a string, or with a
    present optional member of the wrong primitive type, fails with
    [InvalidParams]; the state is untouched, so that no request was sent
    upstream and no file was written. *)
Theorem invalid_arguments_fail_before_upstream
    (E : Env) (args : value) (σ : State) :
  invalid_arguments args →
  callTool E "generate_image" args σ =
    (Throws (McpError InvalidParams "Invalid generate_image arguments"), σ)
  ∧ upstream_calls (snd (callTool E "generate_image" args σ))
    = upstream_calls σ.
Proof.
  intros Hbad. apply invalid_arguments_rejected in Hbad.
  unfold callTool. rewrite Hbad. simpl. split; reflexivity.
Qed.

Lemma invalid_arguments_fail_before_upstream_witness :
  invalid_arguments numeric_prompt ∧
  callTool (sample_env two_images (λ _, 0%Z)) "generate_image"
    numeric_prompt initial_state =
    (Throws (McpError InvalidParams "Invalid generate_image arguments"),
     initial_state).
Proof.
  assert (invalid_arguments numeric_prompt) as Hbad.
  { right; right; right; left. vm_compute. discriminate. }
  split; [exact Hbad|].
  apply (invalid_arguments_fail_before_upstream
           (sample_env two_images (λ _, 0%Z)) numeric_prompt initial_state
           Hbad).
Defined.

(** C8, as the code has it: validation tests the type of [prompt] only, so a
    validated call carries a [prompt] that is a string, possibly the empty
    one, and that string is what the request sent upstream holds. *)
Theorem validated_prompt_is_string (E : Env) (args : value) (σ : State) :
  isValidGenerateImageArgs args = true →
  ∃ s, get args "prompt" = VStr s
     ∧ prompt (upstream_request args) = VStr s
     ∧ upstream_calls (snd (callTool E "generate_image" args σ))
       = upstream_calls σ ++ [upstream_request args].
Proof.
  intros Hv. pose proof Hv as Hspec.
  apply isValidGenerateImageArgs_spec in Hspec as (_ & _ & Hp & _).
  apply typeof_string in Hp as [s Hs]. exists s.
  split; [exact Hs|]. split; [exact Hs|].
  apply callTool_upstream_calls, Hv.
Qed.

Lemma validated_prompt_is_string_witness :
  isValidGenerateImageArgs a_cat = true ∧
  ∃ s, get a_cat "prompt" = VStr s
     ∧ prompt (upstream_request a_cat) = VStr s
     ∧ upstream_calls
         (snd (callTool (sample_env two_images (λ _, 0%Z)) "generate_image"
                 a_cat initial_state))
       = upstream_calls initial_state ++ [upstream_request a_cat].
Proof.
  assert (isValidGenerateImageArgs a_cat = true) as Hv
    by (vm_compute; reflexivity).
  split; [exact Hv|].
  apply (validated_prompt_is_string (sample_env two_images (λ _, 0%Z))
           a_cat initial_state Hv).
Defined.

(** C8, as stated, fails: the empty prompt passes validation and is sent
    upstream. *)
Lemma empty_prompt_is_validated :
  isValidGenerateImageArgs empty_prompt = true
  ∧ get empty_prompt "prompt" = VStr ""
  ∧ prompt <$> upstream_calls
      (snd (callTool (sample_env two_images (λ _, 0%Z)) "generate_image"
              empty_prompt initial_state))
    = [VStr ""].
Proof. vm_compute. repeat split; reflexivity. Qed.

(** ** Defaults and the upstream configuration *)


Lemma or_else_truthy v d : truthy d = true → truthy (or_else v d) = true.
Proof. intros Hd. unfold or_else. destruct (truthy v) eqn:Hv; assumption. Qed.

Lemma or_else_falsy v d : truthy v = false → or_else v d = d.
Proof. intros Hv. unfold or_else. rewrite Hv. reflexivity. Qed.

(** When the three optional values are truthy, every test of the
    construction succeeds. *)
Lemma build_config_truthy n a p s :
  truthy a = true → truthy p = true → truthy s = true →
  build_config n a p s =
  <["sampleImageSize" := s]>
    (<["personGeneration" := p]>
       (<["aspectRatio" := a]> {["numberOfImages" := n]})).
Proof. intros Ha Hp Hs. unfold build_config. rewrite Ha, Hp, Hs. reflexivity. Qed.

(** The configuration of a request built by the handler. *)
Lemma upstream_request_config args :
  config (upstream_request args) =
  <["sampleImageSize" := or_else (get args "sampleImageSize") (VStr "2K")]>
    (<["personGeneration" :=
         or_else (get args "personGeneration") (VStr "allow_adult")]>
       (<["aspectRatio" := or_else (get args "aspectRatio") (VStr "9:16")]>
          {["numberOfImages" :=
              or_else (get args "numberOfImages") (VNum 1)]})).
Proof.
  unfold upstream_request. simpl.
  apply build_config_truthy; apply or_else_truthy; reflexivity.
Qed.

Lemma config_numberOfImages args :
  config (upstream_request args) !! "numberOfImages"
  = Some (or_else (get args "numberOfImages") (VNum 1)).
Proof. rewrite upstream_request_config. by simplify_map_eq. Qed.

Lemma config_aspectRatio args :
  config (upstream_request args) !! "aspectRatio"
  = Some (or_else (get args "aspectRatio") (VStr "9:16")).
Proof. rewrite upstream_request_config. by simplify_map_eq. Qed.

Lemma config_personGeneration args :
  config (upstream_request args) !! "personGeneration"
  = Some (or_else (get args "personGeneration") (VStr "allow_adult")).
Proof. rewrite upstream_request_config. by simplify_map_eq. Qed.

Lemma config_sampleImageSize args :
  config (upstream_request args) !! "sampleImageSize"
  = Some (or_else (get args "sampleImageSize") (VStr "2K")).
Proof. rewrite upstream_request_config. by simplify_map_eq. Qed.

Lemma config_other args k :
  k ∉ config_keys → config (upstream_request args) !! k = None.
Proof.
  intros Hk. rewrite upstream_request_config.
  unfold config_keys in Hk. rewrite !not_elem_of_cons in Hk.
  destruct Hk as (? & ? & ? & ? & _). by simplify_map_eq.
Qed.

(** C2: after validation, every optional member that is omitted has its
    documented default in the one request that is sent upstream. *)
Theorem omitted_fields_take_defaults (E : Env) (args : value) (σ : State) :
  isValidGenerateImageArgs args = true →
  upstream_calls (snd (callTool E "generate_image" args σ))
    = upstream_calls σ ++ [upstream_request args]
  ∧ (get args "numberOfImages" = VUndefined →
     config (upstream_request args) !! "numberOfImages" = Some (VNum 1))
  ∧ (get args "aspectRatio" = VUndefined →
     config (upstream_request args) !! "aspectRatio" = Some (VStr "9:16"))
  ∧ (get args "sampleImageSize" = VUndefined →
     config (upstream_request args) !! "sampleImageSize" = Some (VStr "2K"))
  ∧ (get args "personGeneration" = VUndefined →
     config (upstream_request args) !! "personGeneration"
     = Some (VStr "allow_adult")).
Proof.
  intros Hv. split; [apply callTool_upstream_calls, Hv|].
  rewrite config_numberOfImages, config_aspectRatio, config_sampleImageSize,
    config_personGeneration.
  repeat split; intros ->; reflexivity.
Qed.

Lemma omitted_fields_take_defaults_witness :
  isValidGenerateImageArgs only_prompt = true ∧
  config <$> upstream_calls
    (snd (callTool (sample_env two_images (λ _, 0%Z)) "generate_image"
            only_prompt initial_state))
  = [ {[ "numberOfImages" := VNum 1; "aspectRatio" := VStr "9:16";
         "sampleImageSize" := VStr "2K";
         "personGeneration" := VStr "allow_adult" ]} ].
Proof.
  assert (isValidGenerateImageArgs only_prompt = true) as Hv
    by (vm_compute; reflexivity).
  split; [exact Hv|].
  destruct (omitted_fields_take_defaults (sample_env two_images (λ _, 0%Z))
              only_prompt initial_state Hv) as (-> & _).
  vm_compute. reflexivity.
Defined.

(** C6, as the code has it: the defaults are applied with [||] before the
    configuration is built, so a member given as the empty string, or a
    [numberOfImages] given as zero, is replaced by its default, and the
    default is forwarded.  The configuration of a validated call therefore
    holds all four members, each with a truthy value. *)
Theorem falsy_fields_forwarded_as_defaults
    (E : Env) (args : value) (σ : State) :
  isValidGenerateImageArgs args = true →
  let c := config (upstream_request args) in
  upstream_calls (snd (callTool E "generate_image" args σ))
    = upstream_calls σ ++ [upstream_request args]
  ∧ (∃ n a p s,
       c !! "numberOfImages" = Some n ∧ truthy n = true ∧
       c !! "aspectRatio" = Some a ∧ truthy a = true ∧
       c !! "personGeneration" = Some p ∧ truthy p = true ∧
       c !! "sampleImageSize" = Some s ∧ truthy s = true)
  ∧ (∀ x, get args "numberOfImages" = VNum x → PrimFloat.is_zero x = true →
       c !! "numberOfImages" = Some (VNum 1))
  ∧ (get args "aspectRatio" = VStr "" →
       c !! "aspectRatio" = Some (VStr "9:16"))
  ∧ (get args "personGeneration" = VStr "" →
       c !! "personGeneration" = Some (VStr "allow_adult"))
  ∧ (get args "sampleImageSize" = VStr "" →
       c !! "sampleImageSize" = Some (VStr "2K")).
Proof.
  intros Hv c. subst c. split; [apply callTool_upstream_calls, Hv|].
  rewrite config_numberOfImages, config_aspectRatio, config_sampleImageSize,
    config_personGeneration.
  split.
  { eexists _, _, _, _.
    repeat split; try reflexivity; apply or_else_truthy; reflexivity. }
  split.
  { intros x -> Hx. rewrite or_else_falsy; [reflexivity|].
    simpl. rewrite Hx. reflexivity. }
  repeat split; intros ->; reflexivity.
Qed.

Lemma falsy_fields_forwarded_as_defaults_witness :
  isValidGenerateImageArgs falsy_fields = true ∧
  config (upstream_request falsy_fields) !! "numberOfImages"
    = Some (VNum 1) ∧
  config (upstream_request falsy_fields) !! "aspectRatio"
    = Some (VStr "9:16").
Proof.
  assert (isValidGenerateImageArgs falsy_fields = true) as Hv
    by (vm_compute; reflexivity).
  split; [exact Hv|].
  destruct (falsy_fields_forwarded_as_defaults
              (sample_env two_images (λ _, 0%Z)) falsy_fields initial_state Hv)
    as (_ & _ & Hn & Ha & _).
  split.
  - apply (Hn 0%float); vm_compute; reflexivity.
  - apply Ha. vm_compute. reflexivity.
Defined.

(** C6, as stated, fails: an [aspectRatio] given as the empty string and a
    [numberOfImages] given as zero are not left out of the configuration
    that is forwarded; their defaults are in their place. *)
Lemma falsy_fields_not_omitted :
  isValidGenerateImageArgs falsy_fields = true
  ∧ get falsy_fields "aspectRatio" = VStr ""
  ∧ ∃ request,
      upstream_calls
        (snd (callTool (sample_env two_images (λ _, 0%Z)) "generate_image"
                falsy_fields initial_state)) = [request]
      ∧ config request !! "aspectRatio" = Some (VStr "9:16")
      ∧ config request !! "aspectRatio" ≠ None.
Proof.
  split; [vm_compute; reflexivity|]. split; [vm_compute; reflexivity|].
  eexists. split; [vm_compute; reflexivity|].
  split; [vm_compute; reflexivity|]. vm_compute. discriminate.
Qed.

(** ** Unrecognised members *)

Lemma optional_ok_get props k ty :
  optional_ok props k ty →
  get (VObj props) k = VUndefined ∨ typeof (get (VObj props) k) = ty.
Proof.
  intros [H|(v & H & Hty)]; simpl; rewrite H; simpl; [left|right]; done.
Qed.

Lemma get_insert_ne props k v k' :
  k ≠ k' → get (VObj (<[k:=v]> props)) k' = get (VObj props) k'.
Proof. intros Hne. simpl. rewrite lookup_insert_ne by exact Hne. reflexivity. Qed.

(** C10: an object with a string [prompt] and well-typed known optional
    members is accepted whatever other members it has; adding an
    unrecognised member changes neither the verdict of the validator nor
    anything the handler does, and the configuration sent upstream has no
    member besides the four known ones. *)
Theorem unknown_fields_are_ignored (E : Env) (props : gmap string value) :
  well_typed_fields props →
  isValidGenerateImageArgs (VObj props) = true
  ∧ (∀ k v, k ∉ known_keys →
       isValidGenerateImageArgs (VObj (<[k:=v]> props)) = true
       ∧ upstream_request (VObj (<[k:=v]> props))
         = upstream_request (VObj props)
       ∧ ∀ σ, callTool E "generate_image" (VObj (<[k:=v]> props)) σ
              = callTool E "generate_image" (VObj props) σ)
  ∧ (∀ σ, upstream_calls (snd (callTool E "generate_image" (VObj props) σ))
          = upstream_calls σ ++ [upstream_request (VObj props)])
  ∧ (∀ k, k ∉ config_keys →
       config (upstream_request (VObj props)) !! k = None).
Proof.
  intros ((s & Hs) & Hn & Ha & Hz & Hp).
  assert (isValidGenerateImageArgs (VObj props) = true) as Hv.
  { apply isValidGenerateImageArgs_spec.
    split; [reflexivity|]. split; [discriminate|].
    split; [simpl; rewrite Hs; reflexivity|].
    repeat split; apply optional_ok_get; assumption. }
  split; [exact Hv|]. split; [|split].
  - intros k v Hk. unfold known_keys in Hk. rewrite !not_elem_of_cons in Hk.
    destruct Hk as (H1 & H2 & H3 & H4 & H5 & _).
    assert (isValidGenerateImageArgs (VObj (<[k:=v]> props))
            = isValidGenerateImageArgs (VObj props)) as Hsame.
    { unfold isValidGenerateImageArgs.
      rewrite !(get_insert_ne props k v) by assumption. reflexivity. }
    assert (upstream_request (VObj (<[k:=v]> props))
            = upstream_request (VObj props)) as Hreq.
    { unfold upstream_request.
      rewrite !(get_insert_ne props k v) by assumption. reflexivity. }
    split; [rewrite Hsame; exact Hv|]. split; [exact Hreq|].
    intros σ. unfold callTool. rewrite Hsame.
    rewrite !(get_insert_ne props k v) by assumption. reflexivity.
  - intros σ. apply callTool_upstream_calls, Hv.
  - intros k Hk. apply config_other, Hk.
Qed.

Lemma unknown_fields_are_ignored_witness :
  well_typed_fields a_cat_props ∧
  isValidGenerateImageArgs (VObj a_cat_props) = true ∧
  config (upstream_request (VObj a_cat_props)) !! "seed" = None.
Proof.
  assert (well_typed_fields a_cat_props) as Hw.
  { split; [exists "A cat"; vm_compute; reflexivity|].
    split; [right; exists (VNum 2); split; vm_compute; reflexivity|].
    repeat split; left; vm_compute; reflexivity. }
  split; [exact Hw|].
  destruct (unknown_fields_are_ignored (sample_env two_images (λ _, 0%Z))
              a_cat_props Hw) as (Hv & _ & _ & Hc).
  split; [exact Hv|]. apply Hc. vm_compute.
  intros H. repeat (apply elem_of_cons in H as [H|H]; [discriminate H|]).
  apply elem_of_nil in H. exact H.
Defined.

(** ** The empty response *)

(** C5: when the upstream call returns without a list of images, or with an
    empty one, the call fails with [InternalError] and the message
    [No images generated.]; no file is written and no write is attempted. *)
Theorem no_images_is_internal_error
    (E : Env) (args : value) (σ : State) (response : GenerateImagesResponse) :
  isValidGenerateImageArgs args = true →
  generateImages E (upstream_request args) = Returns response →
  generatedImages response = None ∨ generatedImages response = Some [] →
  ∃ σ',
    callTool E "generate_image" args σ =
      (Throws (McpError InternalError "No images generated."), σ')
    ∧ files σ' = files σ
    ∧ writes σ' = writes σ.
Proof.
  intros Hv Hup Hempty. exists (called σ (upstream_request args)).
  split; [|split; reflexivity].
  rewrite callTool_valid by assumption.
  unfold try_catch. rewrite try_block_unfold. cbv zeta. rewrite Hup.
  destruct Hempty as [-> | ->]; reflexivity.
Qed.

Lemma no_images_is_internal_error_witness :
  ∃ σ',
    callTool (sample_env no_images (λ _, 0%Z)) "generate_image" a_cat
      initial_state =
      (Throws (McpError InternalError "No images generated."), σ')
    ∧ files σ' = files initial_state
    ∧ writes σ' = writes initial_state.
Proof.
  apply (no_images_is_internal_error (sample_env no_images (λ _, 0%Z)) a_cat
           initial_state {| generatedImages := Some [] |}).
  - vm_compute. reflexivity.
  - reflexivity.
  - right. reflexivity.
Defined.

(** ** Errors raised inside the guarded block *)

Lemma append_empty_r s : s +:+ "" = s.
Proof.
  induction s as [|c s IH]; [reflexivity|].
  change (String c (s +:+ "") = String c s). rewrite IH. reflexivity.
Qed.

Lemma contains_suffix pre m : contains (pre +:+ m) m.
Proof. exists pre, "". rewrite append_empty_r. reflexivity. Qed.

(** An upstream failure is raised by the guarded block as it is. *)
Lemma upstream_failure_raised (E : Env) args σ e :
  generateImages E (upstream_request args) = Throws e →
  try_block E (get args "prompt")
    (or_else (get args "numberOfImages") (VNum 1))
    (or_else (get args "aspectRatio") (VStr "9:16"))
    (or_else (get args "sampleImageSize") (VStr "2K"))
    (or_else (get args "personGeneration") (VStr "allow_adult")) σ
  = (Throws e, called σ (upstream_request args)).
Proof. intros Hup. rewrite try_block_unfold. cbv zeta. rewrite Hup. reflexivity. Qed.

(** C4: an error raised inside the guarded block (by the upstream call, by
    the decoding or by a write) that is not an [McpError] leaves the handler
    as an [InternalError] whose message contains the message of the original
    error (or its rendering as a string, when it is not an [Error]); an
    [McpError] leaves the handler with the same code and message. *)
Theorem errors_are_normalised
    (E : Env) (args : value) (σ σ' : State) (e : thrown) :
  isValidGenerateImageArgs args = true →
  try_block E (get args "prompt")
    (or_else (get args "numberOfImages") (VNum 1))
    (or_else (get args "aspectRatio") (VStr "9:16"))
    (or_else (get args "sampleImageSize") (VStr "2K"))
    (or_else (get args "personGeneration") (VStr "allow_adult")) σ
  = (Throws e, σ') →
  ∃ e',
    callTool E "generate_image" args σ = (Throws e', σ')
    ∧ match e with
      | McpError code message => e' = McpError code message
      | OtherError message | NonError message =>
          ∃ text, e' = McpError InternalError text ∧ contains text message
      end.
Proof.
  intros Hv Hbody. rewrite callTool_valid by assumption.
  unfold try_catch. rewrite Hbody.
  destruct e as [code message|message|message]; simpl; unfold throw.
  - eexists. split; reflexivity.
  - eexists. split; [reflexivity|]. eexists. split; [reflexivity|].
    apply contains_suffix.
  - eexists. split; [reflexivity|]. eexists. split; [reflexivity|].
    apply contains_suffix.
Qed.

Lemma errors_are_normalised_witness :
  ∃ e',
    callTool (sample_env quota_exceeded (λ _, 0%Z)) "generate_image" a_cat
      initial_state
    = (Throws e', called initial_state (upstream_request a_cat))
    ∧ ∃ text, e' = McpError InternalError text
            ∧ contains text "429 quota exceeded".
Proof.
  apply (errors_are_normalised (sample_env quota_exceeded (λ _, 0%Z)) a_cat
           initial_state (called initial_state (upstream_request a_cat))
           (OtherError "429 quota exceeded")).
  - vm_compute. reflexivity.
  - apply upstream_failure_raised. reflexivity.
Defined.

(** ** File names *)

Lemma separator_underscore : separator "_".
Proof.
  split; [discriminate|]. intros x. unfold pretty_N_char.
  repeat case_match; discriminate.
Qed.

Lemma separator_dot : separator ".".
Proof.
  split; [discriminate|]. intros x. unfold pretty_N_char.
  repeat case_match; discriminate.
Qed.

Lemma free_of_cons c a s :
  free_of c (String a s) = true ↔ a ≠ c ∧ free_of c s = true.
Proof.
  simpl. rewrite andb_true_iff, negb_true_iff, Ascii.eqb_neq. reflexivity.
Qed.

Lemma pretty_N_go_free c x s :
  separator c → free_of c s = true → free_of c (pretty_N_go x s) = true.
Proof.
  intros [_ Hc]. revert s.
  induction (N.lt_wf_0 x) as [x _ IH]; intros s Hs.
  assert (x = 0 ∨ 0 < x)%N as [->|Hpos] by lia.
  - rewrite pretty_N_go_0. exact Hs.
  - rewrite pretty_N_go_step by exact Hpos. apply IH.
    + apply N.div_lt; lia.
    + apply free_of_cons. split; [apply Hc|exact Hs].
Qed.

Lemma pretty_N_free c (x : N) : separator c → free_of c (pretty x) = true.
Proof.
  intros Hc. unfold pretty, pretty_N. case_decide.
  - apply free_of_cons. split; [|reflexivity].
    destruct Hc as [_ Hc]. apply (Hc 0%N).
  - apply pretty_N_go_free; [exact Hc|reflexivity].
Qed.

Lemma pretty_nat_free c (i : nat) : separator c → free_of c (pretty i) = true.
Proof. intros Hc. apply (pretty_N_free c (N.of_nat i) Hc). Qed.

Lemma pretty_Z_free c (t : Z) : separator c → free_of c (pretty t) = true.
Proof.
  intros Hc. destruct t as [|p|p].
  - apply (pretty_N_free c 0%N Hc).
  - apply (pretty_N_free c (Npos p) Hc).
  - change (free_of c (String "-" (pretty (Npos p))) = true).
    apply free_of_cons. split; [|apply (pretty_N_free c (Npos p) Hc)].
    destruct Hc as [Hc _]. congruence.
Qed.

Lemma append_cons a s r : String a s +:+ r = String a (s +:+ r).
Proof. reflexivity. Qed.

(** Two strings cut at the first occurrence of [c] agree on both sides. *)
Lemma split_at_separator c s1 s2 r1 r2 :
  free_of c s1 = true → free_of c s2 = true →
  s1 +:+ String c r1 = s2 +:+ String c r2 → s1 = s2 ∧ r1 = r2.
Proof.
  revert s2. induction s1 as [|a s1 IH]; intros [|b s2] H1 H2 Heq.
  - injection Heq as ->. split; reflexivity.
  - apply free_of_cons in H2 as [Hb _]. rewrite append_cons in Heq.
    injection Heq as Hc _. congruence.
  - apply free_of_cons in H1 as [Ha _]. rewrite append_cons in Heq.
    injection Heq as Hc _. congruence.
  - apply free_of_cons in H1 as [_ H1]. apply free_of_cons in H2 as [_ H2].
    rewrite !append_cons in Heq. injection Heq as -> Heq.
    destruct (IH s2 H1 H2 Heq) as [-> ->]. split; reflexivity.
Qed.

(** A file name determines its time stamp and its index. *)
Lemma file_path_inj t i t' j :
  file_path t i = file_path t' j → t = t' ∧ i = j.
Proof.
  unfold file_path. intros Heq.
  apply (inj (String.app "/tmp/generated_image_")) in Heq.
  change ("_" +:+ ?x) with (String "_" x) in Heq.
  apply split_at_separator in Heq as [Ht Heq];
    try (apply pretty_Z_free, separator_underscore).
  change (?x +:+ ".png") with (x +:+ String "." "png") in Heq.
  apply split_at_separator in Heq as [Hi _];
    try (apply pretty_nat_free, separator_dot).
  split; [apply (inj pretty), Ht|apply (inj pretty), Hi].
Qed.

Example file_path_example :
  file_path 1758733788860 0 = "/tmp/generated_image_1758733788860_0.png".
Proof. vm_compute. reflexivity. Qed.

Lemma length_loop_paths E r i n : length (loop_paths E r i n) = n.
Proof. revert r i. induction n as [|n IH]; intros r i; simpl; [|rewrite IH]; reflexivity. Qed.

Lemma loop_paths_lookup E r i n j :
  j < n →
  loop_paths E r i n !! j = Some (file_path (Date_now E (r + j)) (i + j)).
Proof.
  revert r i j. induction n as [|n IH]; intros r i [|j] Hj; try lia.
  - simpl. rewrite !Nat.add_0_r. reflexivity.
  - simpl. rewrite IH by lia. rewrite !Nat.add_succ_r. reflexivity.
Qed.

Lemma elem_of_loop_paths E r i n p :
  p ∈ loop_paths E r i n → ∃ t k, i ≤ k ∧ p = file_path t k.
Proof.
  revert r i. induction n as [|n IH]; intros r i Hp; simpl in Hp.
  - apply elem_of_nil in Hp. contradiction.
  - apply elem_of_cons in Hp as [->|Hp].
    + exists (Date_now E r), i. split; [lia|reflexivity].
    + apply IH in Hp as (t & k & Hk & ->). exists t, k. split; [lia|reflexivity].
Qed.

(** No two files of one run of the loop have the same name. *)
Lemma NoDup_loop_paths E r i n : NoDup (loop_paths E r i n).
Proof.
  revert r i. induction n as [|n IH]; intros r i; simpl.
  - apply NoDup_nil_2.
  - apply NoDup_cons. split; [|apply IH].
    intros Hin. apply elem_of_loop_paths in Hin as (t & k & Hk & Heq).
    apply file_path_inj in Heq as [_ ->]. lia.
Qed.

(** ** Persistence *)

Section Persistence.
Context (E : Env).

(** What a run of the loop that completes has done. *)
Lemma write_loop_returns bufs i acc σ ps σ' :
  write_loop E bufs i acc σ = (Returns ps, σ') →
  let paths := loop_paths E (clock_reads σ) i (length bufs) in
  ps = acc ++ paths
  ∧ writes σ' = writes σ ++ zip paths bufs
  ∧ clock_reads σ' = clock_reads σ + length bufs
  ∧ (∀ j b, bufs !! j = Some b →
       files σ' !! file_path (Date_now E (clock_reads σ + j)) (i + j)
       = Some b)
  ∧ (∀ p, (∀ t k, i ≤ k → p ≠ file_path t k) →
       files σ' !! p = files σ !! p).
Proof.
  revert i acc σ. induction bufs as [|b bs IH]; intros i acc σ Hrun.
  - simpl in Hrun. unfold_monad. injection Hrun as <- <-. simpl.
    rewrite !app_nil_r, Nat.add_0_r.
    split; [reflexivity|]. split; [reflexivity|]. split; [reflexivity|].
    split; [|reflexivity]. intros j b Hj. discriminate Hj.
  - simpl in Hrun. unfold_monad. unfold read_Date_now, writeFileSync in Hrun.
    simpl in Hrun.
    destruct (writeFileSync_error E (files σ) _ b); [discriminate Hrun|].
    apply IH in Hrun as (Hps & Hw & Hc & Hnew & Hold). simpl in *.
    split; [rewrite Hps, <- app_assoc; reflexivity|].
    split; [rewrite Hw, <- app_assoc; reflexivity|].
    split; [rewrite Hc; lia|].
    split.
    + intros [|j] b' Hj; simpl in Hj.
      * injection Hj as <-. rewrite !Nat.add_0_r.
        rewrite Hold; [apply lookup_insert_eq|].
        intros t k Hk Heq. apply file_path_inj in Heq as [_ ->]. lia.
      * rewrite !Nat.add_succ_r. apply Hnew, Hj.
    + intros p Hp. rewrite Hold.
      * apply lookup_insert_ne. intros Heq.
        apply (Hp (Date_now E (clock_reads σ)) i); [lia|].
        symmetry. exact Heq.
      * intros t k Hk. apply Hp. lia.
Qed.

(** When no write fails the loop completes. *)
Lemma write_loop_total bufs i acc σ :
  (∀ fs p d, writeFileSync_error E fs p d = None) →
  ∃ ps σ', write_loop E bufs i acc σ = (Returns ps, σ').
Proof.
  intros Hok. revert i acc σ.
  induction bufs as [|b bs IH]; intros i acc σ; simpl; unfold_monad.
  - eauto.
  - unfold read_Date_now, writeFileSync. simpl. rewrite Hok. apply IH.
Qed.

(** The two [map]s succeed exactly on a list of images that all carry a
    payload, and yield the decoded payloads. *)
Lemma mapM_read_imageBytes_returns images σ l σ' :
  mapM read_imageBytes images σ = (Returns l, σ') →
  σ' = σ ∧ ∃ imgs, images = (λ img, {| image := Some img |}) <$> imgs
                 ∧ l = imageBytes <$> imgs.
Proof.
  revert l. induction images as [|g gs IH]; intros l Hrun; simpl in Hrun;
    unfold_monad.
  - injection Hrun as <- <-. split; [reflexivity|]. exists []. done.
  - unfold read_imageBytes at 1 in Hrun. destruct g as [[img|]]; simpl in Hrun;
      [|discriminate Hrun].
    unfold_monad.
    destruct (mapM read_imageBytes gs σ) as [[bs|e] σ1];
      [|discriminate Hrun].
    injection Hrun as <- <-.
    destruct (IH bs eq_refl) as (-> & imgs & -> & ->).
    split; [reflexivity|]. exists (img :: imgs). done.
Qed.

Lemma mapM_Buffer_from_returns l σ bufs σ' :
  mapM (Buffer_from E) l σ = (Returns bufs, σ') →
  σ' = σ ∧ ∃ payloads, l = Some <$> payloads
                     ∧ bufs = Buffer_from_base64 E <$> payloads.
Proof.
  revert bufs. induction l as [|o l IH]; intros bufs Hrun; simpl in Hrun;
    unfold_monad.
  - injection Hrun as <- <-. split; [reflexivity|]. exists []. done.
  - unfold Buffer_from at 1 in Hrun. destruct o as [s|]; simpl in Hrun;
      [|discriminate Hrun].
    unfold_monad.
    destruct (mapM (Buffer_from E) l σ) as [[bs|e] σ1];
      [|discriminate Hrun].
    injection Hrun as <- <-.
    destruct (IH bs eq_refl) as (-> & payloads & -> & ->).
    split; [reflexivity|]. exists (s :: payloads). done.
Qed.

Lemma images_of_payloads (imgs : list Image) (payloads : list string) :
  imageBytes <$> imgs = Some <$> payloads →
  (λ img, {| image := Some img |}) <$> imgs = payload <$> payloads.
Proof.
  revert payloads. induction imgs as [|[o] imgs IH]; intros [|b payloads] Heq;
    simpl in Heq; try discriminate Heq; [reflexivity|].
  injection Heq as -> Heq. rewrite !fmap_cons. f_equal. exact (IH _ Heq).
Qed.

(** What a completed persistence step has done. *)
Lemma persist_returns images σ res σ' :
  persist E images σ = (Returns res, σ') →
  ∃ payloads,
    let paths := loop_paths E (clock_reads σ) 0 (length payloads) in
    let buffers := Buffer_from_base64 E <$> payloads in
    images = payload <$> payloads
    ∧ content res =
        [{| type := "text";
            text := "Generated images saved to: "
                    +:+ String.concat ", " paths |}]
    ∧ writes σ' = writes σ ++ zip paths buffers
    ∧ (∀ j b, payloads !! j = Some b →
         files σ' !! file_path (Date_now E (clock_reads σ + j)) j
         = Some (Buffer_from_base64 E b)).
Proof.
  unfold persist. unfold_monad. intros Hrun.
  destruct (mapM read_imageBytes images σ) as [[l|e] σ1] eqn:H1;
    [|discriminate Hrun].
  apply mapM_read_imageBytes_returns in H1 as (-> & imgs & -> & ->).
  destruct (mapM (Buffer_from E) (imageBytes <$> imgs) σ)
    as [[bufs|e] σ2] eqn:H2; [|discriminate Hrun].
  apply mapM_Buffer_from_returns in H2 as (-> & payloads & Hl & ->).
  destruct (write_loop E (Buffer_from_base64 E <$> payloads) 0 [] σ)
    as [[ps|e] σ3] eqn:H3; [|discriminate Hrun].
  injection Hrun as <- <-.
  apply write_loop_returns in H3 as (-> & Hw & _ & Hnew & _).
  rewrite length_fmap in Hw. rewrite ?length_fmap. simpl in *.
  exists payloads. cbv zeta.
  split; [apply images_of_payloads, Hl|].
  split; [reflexivity|]. split; [exact Hw|].
  intros j b Hj. apply (Hnew j). rewrite list_lookup_fmap, Hj. reflexivity.
Qed.

(** What a successful call has done. *)
Lemma callTool_returns args σ response images res σ' :
  isValidGenerateImageArgs args = true →
  generateImages E (upstream_request args) = Returns response →
  generatedImages response = Some images →
  callTool E "generate_image" args σ = (Returns res, σ') →
  ∃ payloads,
    let paths := loop_paths E (clock_reads σ) 0 (length payloads) in
    let buffers := Buffer_from_base64 E <$> payloads in
    images = payload <$> payloads
    ∧ payloads ≠ []
    ∧ content res =
        [{| type := "text";
            text := "Generated images saved to: "
                    +:+ String.concat ", " paths |}]
    ∧ writes σ' = writes σ ++ zip paths buffers
    ∧ (∀ j b, payloads !! j = Some b →
         files σ' !! file_path (Date_now E (clock_reads σ + j)) j
         = Some (Buffer_from_base64 E b)).
Proof.
  intros Hv Hup Himgs Hrun. rewrite callTool_valid in Hrun by assumption.
  unfold try_catch in Hrun. rewrite try_block_unfold in Hrun.
  cbv zeta in Hrun. rewrite Hup, Himgs in Hrun.
  destruct images as [|g gs]; [discriminate Hrun|].
  destruct (persist E (g :: gs) (called σ (upstream_request args)))
    as [[r|e] σ1] eqn:Hp.
  - injection Hrun as <- <-.
    apply persist_returns in Hp as (payloads & Himg & Hrest).
    exists payloads. cbv zeta. split; [exact Himg|].
    split; [|exact Hrest]. intros ->. discriminate Himg.
  - destruct e; discriminate Hrun.
Qed.

(** Persistence completes when every image carries a payload and no write
    fails. *)
Lemma persist_total payloads σ :
  (∀ fs p d, writeFileSync_error E fs p d = None) →
  ∃ res σ', persist E (payload <$> payloads) σ = (Returns res, σ').
Proof.
  intros Hok.
  assert (∀ l, mapM read_imageBytes (payload <$> l) σ
               = (Returns (Some <$> l), σ)) as Hread.
  { induction l as [|x l IH]; [reflexivity|]. rewrite fmap_cons. simpl.
    unfold_monad. simpl. rewrite IH. reflexivity. }
  assert (∀ l, mapM (Buffer_from E) (Some <$> l) σ
               = (Returns (Buffer_from_base64 E <$> l), σ)) as Hdec.
  { induction l as [|x l IH]; [reflexivity|]. rewrite fmap_cons. simpl.
    unfold_monad. simpl. rewrite IH. reflexivity. }
  unfold persist. unfold_monad. rewrite Hread, Hdec.
  destruct (write_loop_total (Buffer_from_base64 E <$> payloads) 0 [] σ Hok)
    as (ps & σ2 & ->).
  eauto.
Qed.

(** A call succeeds when the upstream returns at least one image, every
    image carries a payload and no write fails. *)
Lemma callTool_succeeds args σ payloads :
  isValidGenerateImageArgs args = true →
  payloads ≠ [] →
  generateImages E (upstream_request args)
    = Returns {| generatedImages := Some (payload <$> payloads) |} →
  (∀ fs p d, writeFileSync_error E fs p d = None) →
  ∃ res σ', callTool E "generate_image" args σ = (Returns res, σ').
Proof.
  intros Hv Hne Hup Hok. rewrite callTool_valid by assumption.
  unfold try_catch. rewrite try_block_unfold. cbv zeta. rewrite Hup.
  simpl generatedImages.
  destruct (persist_total payloads (called σ (upstream_request args)) Hok)
    as (res & σ' & Hp).
  destruct payloads as [|b bs]; [contradiction|].
  rewrite fmap_cons in Hp |- *. cbv iota. rewrite Hp. eauto.
Qed.

(** The earlier handler persists in the same way. *)
Lemma legacy_callTool_returns args σ response images res σ' :
  Legacy.isValidGenerateImageArgs args = true →
  generateImages E (Legacy.upstream_request args) = Returns response →
  generatedImages response = Some images →
  Legacy.callTool E "generate_image" args σ = (Returns res, σ') →
  ∃ payloads,
    let paths := loop_paths E (clock_reads σ) 0 (length payloads) in
    let buffers := Buffer_from_base64 E <$> payloads in
    images = payload <$> payloads
    ∧ payloads ≠ []
    ∧ NoDup paths
    ∧ content res =
        [{| type := "text";
            text := "Generated images saved to: "
                    +:+ String.concat ", " paths |}]
    ∧ writes σ' = writes σ ++ zip paths buffers
    ∧ (∀ j b, payloads !! j = Some b →
         files σ' !! file_path (Date_now E (clock_reads σ + j)) j
         = Some (Buffer_from_base64 E b)).
Proof.
  intros Hv Hup Himgs Hrun. unfold Legacy.callTool in Hrun.
  rewrite Hv in Hrun. simpl in Hrun.
  unfold try_catch, Legacy.try_block in Hrun. unfold_monad.
  unfold call_generateImages in Hrun.
  fold (Legacy.upstream_request args) in Hrun.
  rewrite Hup, Himgs in Hrun.
  destruct images as [|g gs]; [discriminate Hrun|].
  fold (called σ (Legacy.upstream_request args)) in Hrun.
  change (match persist E (g :: gs) (called σ (Legacy.upstream_request args))
          with
          | (Returns a, σ1) => (Returns a, σ1)
          | (Throws e, σ1) => catch_block e σ1
          end = (Returns res, σ')) in Hrun.
  destruct (persist E (g :: gs) (called σ (Legacy.upstream_request args)))
    as [[r|e] σ1] eqn:Hp.
  - injection Hrun as <- <-.
    apply persist_returns in Hp as (payloads & Himg & Hrest).
    exists payloads. cbv zeta. split; [exact Himg|].
    split; [intros ->; discriminate Himg|].
    split; [apply NoDup_loop_paths|exact Hrest].
  - destruct e; discriminate Hrun.
Qed.

End Persistence.

(** A write that fails after an earlier one succeeded: the call fails with
    [InternalError], and the file already written stays. *)
Example second_write_fails :
  callTool disk_full_after_one "generate_image" a_cat initial_state
  = (Throws (McpError InternalError
       "Image generation failed: ENOSPC: no space left on device, write"),
     {| upstream_calls := [upstream_request a_cat];
        clock_reads := 2;
        files :=
          {[ "/tmp/generated_image_1758733788860_0.png"
               := [Byte.x68; Byte.x69] ]};
        writes :=
          [("/tmp/generated_image_1758733788860_0.png",
            [Byte.x68; Byte.x69])] |}).
Proof. vm_compute. reflexivity. Qed.

(** C1: a successful call whose upstream response lists N images has written
    N files, under N different names, and reports N paths; the i-th path is
    the name of the file that holds the decoded i-th payload.  Nothing of
    this depends on the [numberOfImages] of the arguments. *)
Theorem one_file_per_upstream_image
    (E : Env) (args : value) (σ σ' : State)
    (response : GenerateImagesResponse) (images : list GeneratedImage)
    (res : CallToolResult) :
  isValidGenerateImageArgs args = true →
  generateImages E (upstream_request args) = Returns response →
  generatedImages response = Some images →
  callTool E "generate_image" args σ = (Returns res, σ') →
  ∃ payloads paths,
    images = payload <$> payloads
    ∧ 1 ≤ length images
    ∧ length paths = length images
    ∧ content res =
        [{| type := "text";
            text := "Generated images saved to: "
                    +:+ String.concat ", " paths |}]
    ∧ writes σ' = writes σ ++ zip paths (Buffer_from_base64 E <$> payloads)
    ∧ length (writes σ') = length (writes σ) + length images
    ∧ NoDup paths
    ∧ ∀ i p, paths !! i = Some p →
        ∃ b, payloads !! i = Some b
           ∧ files σ' !! p = Some (Buffer_from_base64 E b).
Proof.
  intros Hv Hup Himgs Hrun.
  destruct (callTool_returns E args σ response images res σ' Hv Hup Himgs Hrun)
    as (payloads & -> & Hne & Hres & Hw & Hfiles).
  exists payloads, (loop_paths E (clock_reads σ) 0 (length payloads)).
  rewrite length_fmap, length_loop_paths.
  split; [reflexivity|].
  split; [destruct payloads; [contradiction|simpl; lia]|].
  split; [reflexivity|]. split; [exact Hres|]. split; [exact Hw|].
  split.
  { rewrite Hw, length_app, length_zip, length_loop_paths, length_fmap. lia. }
  split; [apply NoDup_loop_paths|].
  intros i p Hp.
  assert (i < length payloads) as Hi.
  { apply lookup_lt_Some in Hp. rewrite length_loop_paths in Hp. exact Hp. }
  rewrite loop_paths_lookup in Hp by exact Hi. injection Hp as <-.
  destruct (lookup_lt_is_Some_2 payloads i Hi) as [b Hb].
  exists b. split; [exact Hb|]. apply Hfiles, Hb.
Qed.

Lemma a_cat_run :
  callTool (sample_env two_images ticking) "generate_image" a_cat
    initial_state = (Returns a_cat_result, a_cat_final_state).
Proof. vm_compute. reflexivity. Qed.

Lemma one_file_per_upstream_image_witness :
  ∃ payloads paths,
    [payload "aGk="; payload "eW8="] = payload <$> payloads
    ∧ 1 ≤ 2
    ∧ length paths = 2
    ∧ content a_cat_result =
        [{| type := "text";
            text := "Generated images saved to: "
                    +:+ String.concat ", " paths |}]
    ∧ writes a_cat_final_state = [] ++ zip paths (sample_base64 <$> payloads)
    ∧ length (writes a_cat_final_state) = 0 + 2
    ∧ NoDup paths
    ∧ ∀ i p, paths !! i = Some p →
        ∃ b, payloads !! i = Some b
           ∧ files a_cat_final_state !! p = Some (sample_base64 b).
Proof.
  apply (one_file_per_upstream_image (sample_env two_images ticking) a_cat
           initial_state a_cat_final_state
           {| generatedImages := Some [payload "aGk="; payload "eW8="] |}
           [payload "aGk="; payload "eW8="] a_cat_result).
  - vm_compute. reflexivity.
  - reflexivity.
  - reflexivity.
  - vm_compute. reflexivity.
Defined.

(** C7, as the code has it: the clock is read anew before each write, so the
    i-th file of a successful call is named
    [/tmp/generated_image_<t_i>_<i>.png], where [t_i] is the value that the
    clock shows at its i-th reading within the call.  The files of one call
    bear one common time stamp exactly as far as the clock shows the same
    value at each of these readings; their names differ in any case. *)
Theorem file_names_follow_the_clock
    (E : Env) (args : value) (σ σ' : State)
    (response : GenerateImagesResponse) (images : list GeneratedImage)
    (res : CallToolResult) :
  isValidGenerateImageArgs args = true →
  generateImages E (upstream_request args) = Returns response →
  generatedImages response = Some images →
  callTool E "generate_image" args σ = (Returns res, σ') →
  ∃ paths,
    fst <$> writes σ' = (fst <$> writes σ) ++ paths
    ∧ length paths = length images
    ∧ (∀ i, i < length images →
         paths !! i = Some (file_path (Date_now E (clock_reads σ + i)) i))
    ∧ (∀ t, (∀ i, i < length images → Date_now E (clock_reads σ + i) = t) →
         ∀ i, i < length images → paths !! i = Some (file_path t i))
    ∧ NoDup paths.
Proof.
  intros Hv Hup Himgs Hrun.
  destruct (callTool_returns E args σ response images res σ' Hv Hup Himgs Hrun)
    as (payloads & -> & Hne & Hres & Hw & Hfiles).
  exists (loop_paths E (clock_reads σ) 0 (length payloads)).
  rewrite length_fmap, length_loop_paths.
  split.
  { rewrite Hw, fmap_app. f_equal. apply fst_zip.
    rewrite length_loop_paths, length_fmap. lia. }
  split; [reflexivity|]. split; [|split; [|apply NoDup_loop_paths]].
  - intros i Hi. apply loop_paths_lookup, Hi.
  - intros t Ht i Hi. rewrite loop_paths_lookup by exact Hi.
    rewrite (Ht i Hi). reflexivity.
Qed.

Lemma file_names_follow_the_clock_witness :
  ∃ paths,
    fst <$> writes a_cat_final_state = (fst <$> @nil (string * list byte)) ++ paths
    ∧ length paths = 2
    ∧ (∀ i, i < 2 → paths !! i = Some (file_path (ticking (0 + i)) i))
    ∧ (∀ t, (∀ i, i < 2 → ticking (0 + i) = t) →
         ∀ i, i < 2 → paths !! i = Some (file_path t i))
    ∧ NoDup paths.
Proof.
  apply (file_names_follow_the_clock (sample_env two_images ticking) a_cat
           initial_state a_cat_final_state
           {| generatedImages := Some [payload "aGk="; payload "eW8="] |}
           [payload "aGk="; payload "eW8="] a_cat_result).
  - vm_compute. reflexivity.
  - reflexivity.
  - reflexivity.
  - vm_compute. reflexivity.
Defined.

Example file_path_second :
  file_path 1758733788861 1 = "/tmp/generated_image_1758733788861_1.png".
Proof. vm_compute. reflexivity. Qed.

(** C7, as stated, fails: when the clock advances between the two writes of
    one call, the two files bear different time stamps. *)
Lemma time_stamps_differ_within_a_call :
  fst <$> writes
    (snd (callTool (sample_env two_images ticking) "generate_image" a_cat
            initial_state))
  = ["/tmp/generated_image_1758733788860_0.png";
     "/tmp/generated_image_1758733788861_1.png"]
  ∧ ¬ ∃ t, fst <$> writes
        (snd (callTool (sample_env two_images ticking) "generate_image" a_cat
                initial_state))
      = [file_path t 0; file_path t 1].
Proof.
  rewrite a_cat_run. split; [reflexivity|].
  assert (fst <$> writes (snd (Returns a_cat_result, a_cat_final_state))
          = [file_path 1758733788860 0; file_path 1758733788861 1]) as ->
    by (vm_compute; reflexivity).
  intros [t Heq].
  assert (∀ a b c d : string, [a; b] = [c; d] → a = c ∧ b = d) as Hpair
    by (intros a b c d H; split; congruence).
  apply Hpair in Heq as [H0 H1].
  apply file_path_inj in H0 as [H0 _]. apply file_path_inj in H1 as [H1 _].
  rewrite <- H0 in H1. discriminate H1.
Qed.

(** ** The tool descriptor *)

(** The parts of the advertised schema that agree with what the handler
    applies: the bounds of [numberOfImages] and the defaults of [aspectRatio]
    and [sampleImageSize]. *)
Lemma advertised_schema_agrees :
  advertised "numberOfImages" "type" = VStr "number"
  ∧ advertised "numberOfImages" "minimum" = VNum 1
  ∧ advertised "numberOfImages" "maximum" = VNum 4
  ∧ Some (advertised "aspectRatio" "default")
    = config (upstream_request only_prompt) !! "aspectRatio"
  ∧ Some (advertised "sampleImageSize" "default")
    = config (upstream_request only_prompt) !! "sampleImageSize"
  ∧ get tool_descriptor "inputSchema" ≠ VUndefined.
Proof. vm_compute. repeat split; try reflexivity. discriminate. Qed.

(** C9: the [ListTools] reply lists exactly one tool, named
    [generate_image].  Its schema, however, advertises the default
    [allow_all] for [personGeneration], whereas the handler applies
    [allow_adult] to a call that omits the member; and it advertises no
    default for [numberOfImages], whereas the handler applies 1. *)
Theorem advertised_personGeneration_default_differs :
  get listTools "tools" = VArr [tool_descriptor]
  ∧ get tool_descriptor "name" = VStr "generate_image"
  ∧ advertised "personGeneration" "default" = VStr "allow_all"
  ∧ config (upstream_request only_prompt) !! "personGeneration"
    = Some (VStr "allow_adult")
  ∧ advertised "personGeneration" "default" ≠ VStr "allow_adult"
  ∧ advertised "numberOfImages" "default" = VUndefined
  ∧ config (upstream_request only_prompt) !! "numberOfImages"
    = Some (VNum 1).
Proof.
  repeat split; try (vm_compute; reflexivity). vm_compute. discriminate.
Qed.

(** * Further properties of the handler *)

(** ** Dispatch and validation *)

(** X1: a call that names any tool other than [generate_image] fails with
    [MethodNotFound] and a message that quotes the name; the arguments are
    not looked at, and the state is untouched. *)
Theorem unknown_tool_is_method_not_found
    (E : Env) (name : string) (args : value) (σ : State) :
  name ≠ "generate_image" →
  callTool E name args σ =
    (Throws (McpError MethodNotFound ("Unknown tool: " +:+ name)), σ).
Proof.
  intros Hname. unfold callTool.
  apply String.eqb_neq in Hname. rewrite Hname. reflexivity.
Qed.

Lemma unknown_tool_is_method_not_found_witness :
  callTool (sample_env two_images ticking) "unknown_tool" VNull initial_state
  = (Throws (McpError MethodNotFound "Unknown tool: unknown_tool"),
     initial_state).
Proof.
  apply (unknown_tool_is_method_not_found (sample_env two_images ticking)
           "unknown_tool" VNull initial_state).
  discriminate.
Defined.

Lemma is_not_null_false v : is_not_null v = false → v = VNull.
Proof. destruct v; simpl; try discriminate. reflexivity. Qed.

Lemma optional_test_false v ty :
  is_undefined v || String.eqb (typeof v) ty = false →
  v ≠ VUndefined ∧ typeof v ≠ ty.
Proof.
  rewrite orb_false_iff, String.eqb_neq. intros [Hu Ht].
  split; [|exact Ht]. intros ->. discriminate Hu.
Qed.

(** X2: the validator rejects nothing but the documented shapes: arguments
    are rejected exactly when they are [null], not an object, without a
    string [prompt], or hold a present optional member of the wrong
    primitive type. *)
Theorem rejected_iff_invalid_arguments (args : value) :
  isValidGenerateImageArgs args = false ↔ invalid_arguments args.
Proof.
  split; [|apply invalid_arguments_rejected].
  unfold isValidGenerateImageArgs, invalid_arguments, wrong_type.
  rewrite !andb_false_iff.
  intros [[[[[[H|H]|H]|H]|H]|H]|H].
  - right; left. apply String.eqb_neq, H.
  - left. apply is_not_null_false, H.
  - right; right; right; left. apply String.eqb_neq, H.
  - right; right; right; right; left. apply optional_test_false, H.
  - right; right; right; right; right; left. apply optional_test_false, H.
  - right; right; right; right; right; right; left.
    apply optional_test_false, H.
  - right; right; right; right; right; right; right.
    apply optional_test_false, H.
Qed.

Lemma pretty_nat_ne_prompt (i : nat) : pretty i ≠ "prompt".
Proof.
  intros Heq.
  assert (separator "p") as Hsep.
  { split; [discriminate|]. intros x. unfold pretty_N_char.
    repeat case_match; discriminate. }
  pose proof (pretty_nat_free "p" i Hsep) as Hfree.
  rewrite Heq in Hfree. discriminate Hfree.
Qed.

Lemma array_get_prompt items i : array_get items i "prompt" = VUndefined.
Proof.
  revert i. induction items as [|v items IH]; intros i; simpl; [reflexivity|].
  destruct (String.eqb (pretty i) "prompt") eqn:Heq; [|apply IH].
  apply String.eqb_eq in Heq. destruct (pretty_nat_ne_prompt i Heq).
Qed.

(** X3: arguments given as an array are rejected with [InvalidParams],
    whatever the array holds, although [typeof] calls an array an object: an
    array has no [prompt]. *)
Theorem array_arguments_are_rejected
    (E : Env) (items : list value) (σ : State) :
  isValidGenerateImageArgs (VArr items) = false
  ∧ callTool E "generate_image" (VArr items) σ =
      (Throws (McpError InvalidParams "Invalid generate_image arguments"), σ).
Proof.
  assert (isValidGenerateImageArgs (VArr items) = false) as Hbad.
  { unfold isValidGenerateImageArgs. simpl get.
    rewrite array_get_prompt. reflexivity. }
  split; [exact Hbad|]. unfold callTool. rewrite Hbad. reflexivity.
Qed.

Lemma config_lookup_known args k :
  k ∈ config_keys →
  ∃ d, truthy d = true
     ∧ config (upstream_request args) !! k = Some (or_else (get args k) d).
Proof.
  unfold config_keys. rewrite !elem_of_cons, elem_of_nil.
  intros [->|[->|[->|[->|[]]]]].
  - exists (VNum 1). split; [reflexivity|apply config_numberOfImages].
  - exists (VStr "9:16"). split; [reflexivity|apply config_aspectRatio].
  - exists (VStr "allow_adult").
    split; [reflexivity|apply config_personGeneration].
  - exists (VStr "2K"). split; [reflexivity|apply config_sampleImageSize].
Qed.

(** X4: validation tests types only, so a member of the configuration that
    the caller gives with a truthy value is forwarded upstream as given:
    neither the range 1-4 of [numberOfImages] nor the enumerations of the
    three textual members are enforced. *)
Theorem given_values_are_forwarded_unchecked
    (E : Env) (args : value) (σ : State) (k : string) :
  isValidGenerateImageArgs args = true →
  k ∈ config_keys →
  truthy (get args k) = true →
  upstream_calls (snd (callTool E "generate_image" args σ))
    = upstream_calls σ ++ [upstream_request args]
  ∧ config (upstream_request args) !! k = Some (get args k).
Proof.
  intros Hv Hk Ht. split; [apply callTool_upstream_calls, Hv|].
  destruct (config_lookup_known args k Hk) as (d & _ & ->).
  unfold or_else. rewrite Ht. reflexivity.
Qed.

Lemma given_values_are_forwarded_unchecked_witness :
  upstream_calls
    (snd (callTool (sample_env two_images ticking) "generate_image"
            out_of_range initial_state))
    = upstream_calls initial_state ++ [upstream_request out_of_range]
  ∧ config (upstream_request out_of_range) !! "numberOfImages"
    = Some (get out_of_range "numberOfImages").
Proof.
  apply (given_values_are_forwarded_unchecked
           (sample_env two_images ticking) out_of_range initial_state
           "numberOfImages").
  - vm_compute. reflexivity.
  - apply list_elem_of_here.
  - vm_compute. reflexivity.
Defined.

(** X5: one invocation calls the upstream service at most once, with no
    retry whatever the outcome: the log of upstream requests is either
    unchanged, or extended by the one request built from the arguments,
    the latter exactly for a validated call of [generate_image]. *)
Theorem at_most_one_upstream_call
    (E : Env) (name : string) (args : value) (σ : State) :
  (upstream_calls (snd (callTool E name args σ)) = upstream_calls σ
   ∧ (name ≠ "generate_image" ∨ isValidGenerateImageArgs args = false))
  ∨ (upstream_calls (snd (callTool E name args σ))
       = upstream_calls σ ++ [upstream_request args]
     ∧ name = "generate_image" ∧ isValidGenerateImageArgs args = true).
Proof.
  destruct (String.eqb name "generate_image") eqn:Hname.
  - apply String.eqb_eq in Hname. subst name.
    destruct (isValidGenerateImageArgs args) eqn:Hv.
    + right. split; [apply callTool_upstream_calls, Hv|]. split; reflexivity.
    + left. unfold callTool. rewrite Hv. simpl. split; [reflexivity|].
      right. reflexivity.
  - left. unfold callTool. rewrite Hname. simpl. split; [reflexivity|].
    left. apply String.eqb_neq, Hname.
Qed.

(** ** File names *)

(** X6: the naming scheme is injective: two generated file names are equal
    exactly when both the time stamp and the index are. *)
Theorem file_names_collide_only_when_equal (t t' : Z) (i j : nat) :
  file_path t i = file_path t' j ↔ t = t' ∧ i = j.
Proof.
  split; [apply file_path_inj|]. intros [-> ->]. reflexivity.
Qed.

(** ** Persistence, whatever its outcome *)

Section Outcomes.
Context (E : Env).

(** What a run of the loop has done when it stops, normally or not: it has
    completed the first [k] writes, in order, and nothing else. *)
Lemma write_loop_any bufs i acc σ o σ' :
  write_loop E bufs i acc σ = (o, σ') →
  ∃ k,
    k ≤ length bufs
    ∧ writes σ' = writes σ ++ zip (loop_paths E (clock_reads σ) i k) bufs
    ∧ upstream_calls σ' = upstream_calls σ
    ∧ (∀ j b, j < k → bufs !! j = Some b →
         files σ' !! file_path (Date_now E (clock_reads σ + j)) (i + j)
         = Some b)
    ∧ (∀ p, (∀ t n, i ≤ n → p ≠ file_path t n) →
         files σ' !! p = files σ !! p)
    ∧ (∀ p, is_Some (files σ !! p) → is_Some (files σ' !! p))
    ∧ match o with
      | Returns ps =>
          k = length bufs
          ∧ ps = acc ++ loop_paths E (clock_reads σ) i k
          ∧ clock_reads σ' = clock_reads σ + k
      | Throws e =>
          k < length bufs
          ∧ clock_reads σ' = clock_reads σ + S k
          ∧ ∃ m b,
              bufs !! k = Some b
              ∧ writeFileSync_error E (files σ')
                  (file_path (Date_now E (clock_reads σ + k)) (i + k)) b
                = Some m
              ∧ e = OtherError m
      end.
Proof.
  revert i acc σ. induction bufs as [|b bs IH]; intros i acc σ Hrun.
  - simpl in Hrun. unfold_monad. injection Hrun as <- <-. exists 0. simpl.
    rewrite !app_nil_r, Nat.add_0_r.
    split; [lia|]. split; [reflexivity|]. split; [reflexivity|].
    split; [intros j b' Hj; lia|]. split; [reflexivity|].
    split; [tauto|]. split; [reflexivity|]. split; reflexivity.
  - simpl in Hrun. unfold_monad. unfold read_Date_now, writeFileSync in Hrun.
    simpl in Hrun.
    destruct (writeFileSync_error E (files σ)
                (file_path (Date_now E (clock_reads σ)) i) b) as [m|] eqn:Hw.
    + injection Hrun as <- <-. exists 0. simpl.
      rewrite !app_nil_r, !Nat.add_0_r.
      split; [lia|]. split; [reflexivity|]. split; [reflexivity|].
      split; [intros j b' Hj; lia|]. split; [reflexivity|].
      split; [tauto|]. split; [lia|]. split; [lia|].
      exists m, b. split; [reflexivity|]. split; [exact Hw|reflexivity].
    + apply IH in Hrun
        as (k & Hk & Hwr & Hup & Hnew & Hold & Hmono & Ho). simpl in *.
      exists (S k). simpl.
      split; [lia|].
      split; [rewrite Hwr, <- app_assoc; reflexivity|].
      split; [exact Hup|].
      split.
      { intros [|j] b' Hj Hb; simpl in Hb.
        - injection Hb as <-. rewrite !Nat.add_0_r.
          rewrite Hold; [apply lookup_insert_eq|].
          intros t n Hn Heq. apply file_path_inj in Heq as [_ ->]. lia.
        - rewrite !Nat.add_succ_r. apply Hnew; [lia|exact Hb]. }
      split.
      { intros p Hp. rewrite Hold.
        - apply lookup_insert_ne. intros Heq.
          apply (Hp (Date_now E (clock_reads σ)) i); [lia|].
          symmetry. exact Heq.
        - intros t n Hn. apply Hp. lia. }
      split.
      { intros p Hp. apply Hmono. rewrite lookup_insert_is_Some.
        destruct (decide (file_path (Date_now E (clock_reads σ)) i = p));
          [left; assumption|right; split; assumption]. }
      destruct o as [ps|e].
      * destruct Ho as (-> & -> & Hc).
        split; [reflexivity|]. split; [|lia].
        rewrite <- app_assoc. reflexivity.
      * destruct Ho as (Hlt & Hc & m & b' & Hb & Hm & ->).
        split; [lia|]. split; [lia|].
        exists m, b'. rewrite !Nat.add_succ_r. simpl. eauto.
Qed.

Lemma mapM_read_imageBytes_throws images σ e σ' :
  mapM read_imageBytes images σ = (Throws e, σ') →
  e = OtherError msg_read_of_undefined ∧ ∃ g, g ∈ images ∧ image g = None.
Proof.
  induction images as [|g gs IH]; intros Hrun; simpl in Hrun; unfold_monad;
    [discriminate Hrun|].
  unfold read_imageBytes at 1 in Hrun.
  destruct (image g) as [img|] eqn:Himg; simpl in Hrun.
  - unfold_monad.
    destruct (mapM read_imageBytes gs σ) as [[bs|e1] σ1];
      [discriminate Hrun|].
    injection Hrun as <- <-. destruct (IH eq_refl) as (-> & g' & Hin & Hg').
    split; [reflexivity|]. exists g'. split; [|exact Hg'].
    apply list_elem_of_further, Hin.
  - unfold throw in Hrun. injection Hrun as <- <-.
    split; [reflexivity|]. exists g. split; [apply list_elem_of_here|exact Himg].
Qed.

Lemma mapM_Buffer_from_throws l σ e σ' :
  mapM (Buffer_from E) l σ = (Throws e, σ') →
  e = OtherError msg_buffer_from_undefined ∧ None ∈ l.
Proof.
  induction l as [|o l IH]; intros Hrun; simpl in Hrun; unfold_monad;
    [discriminate Hrun|].
  unfold Buffer_from at 1 in Hrun. destruct o as [s|]; simpl in Hrun.
  - unfold_monad.
    destruct (mapM (Buffer_from E) l σ) as [[bs|e1] σ1];
      [discriminate Hrun|].
    injection Hrun as <- <-. destruct (IH eq_refl) as (-> & Hin).
    split; [reflexivity|]. apply list_elem_of_further, Hin.
  - unfold throw in Hrun. injection Hrun as <- <-.
    split; [reflexivity|apply list_elem_of_here].
Qed.

Lemma payload_has_payload b : ¬ lacks_payload (payload b).
Proof.
  intros [H|(img & H1 & H2)]; simpl in *; [discriminate H|].
  injection H1 as <-. discriminate H2.
Qed.

(** The two ways in which persistence ends: before the first write, because
    an image carries no payload, or in the loop. *)
Lemma persist_any images σ o σ' :
  persist E images σ = (o, σ') →
  (σ' = σ
   ∧ (∃ g, g ∈ images ∧ lacks_payload g)
   ∧ (o = Throws (OtherError msg_read_of_undefined)
      ∨ o = Throws (OtherError msg_buffer_from_undefined)))
  ∨ (∃ payloads o1,
       images = payload <$> payloads
       ∧ write_loop E (Buffer_from_base64 E <$> payloads) 0 [] σ = (o1, σ')
       ∧ match o1 with
         | Returns filePaths =>
             o = Returns {| content :=
               [{| type := "text";
                   text := "Generated images saved to: "
                           +:+ String.concat ", " filePaths |}] |}
         | Throws e => o = Throws e
         end).
Proof.
  unfold persist. unfold_monad. intros Hrun.
  pose proof (mapM_read_imageBytes_state images σ) as Hs1.
  destruct (mapM read_imageBytes images σ) as [[l|e] σ1] eqn:H1;
    simpl in Hs1; subst σ1.
  - apply mapM_read_imageBytes_returns in H1 as (_ & imgs & -> & ->).
    pose proof (mapM_Buffer_from_state E (imageBytes <$> imgs) σ) as Hs2.
    destruct (mapM (Buffer_from E) (imageBytes <$> imgs) σ)
      as [[bufs|e] σ2] eqn:H2; simpl in Hs2; subst σ2.
    + apply mapM_Buffer_from_returns in H2 as (_ & payloads & Hl & ->).
      right. exists payloads.
      destruct (write_loop E (Buffer_from_base64 E <$> payloads) 0 [] σ)
        as [o1 σ3] eqn:H3.
      exists o1. split; [apply images_of_payloads, Hl|].
      destruct o1 as [ps|e]; injection Hrun as <- <-; split; reflexivity.
    + injection Hrun as <- <-.
      apply mapM_Buffer_from_throws in H2 as (-> & Hin).
      left. split; [reflexivity|]. split; [|right; reflexivity].
      apply list_elem_of_fmap in Hin as (img & Himg & Hin).
      exists {| image := Some img |}. split.
      * apply list_elem_of_fmap. exists img. split; [reflexivity|exact Hin].
      * right. exists img. split; [reflexivity|]. symmetry. exact Himg.
  - injection Hrun as <- <-.
    apply mapM_read_imageBytes_throws in H1 as (-> & g & Hin & Hg).
    left. split; [reflexivity|]. split; [|left; reflexivity].
    exists g. split; [exact Hin|]. left. exact Hg.
Qed.

(** A validated call whose upstream response lists at least one image
    continues with persistence, and hands what persistence throws to the
    [catch] clause. *)
Lemma callTool_persists args σ response images :
  isValidGenerateImageArgs args = true →
  generateImages E (upstream_request args) = Returns response →
  generatedImages response = Some images →
  images ≠ [] →
  callTool E "generate_image" args σ =
  match persist E images (called σ (upstream_request args)) with
  | (Returns a, σ') => (Returns a, σ')
  | (Throws e, σ') => catch_block e σ'
  end.
Proof.
  intros Hv Hup Himgs Hne. rewrite callTool_valid by assumption.
  unfold try_catch. rewrite try_block_unfold. cbv zeta.
  rewrite Hup, Himgs. destruct images as [|g gs]; [contradiction|].
  reflexivity.
Qed.

End Outcomes.

Lemma payload_fmap_inj (l1 l2 : list string) :
  payload <$> l1 = payload <$> l2 → l1 = l2.
Proof.
  revert l2. induction l1 as [|a l1 IH]; intros [|b l2] Heq;
    try discriminate Heq; [reflexivity|].
  rewrite !fmap_cons in Heq. injection Heq as -> Heq.
  rewrite (IH l2 Heq). reflexivity.
Qed.

Lemma payloads_have_payload (payloads : list string) g :
  g ∈ payload <$> payloads → ¬ lacks_payload g.
Proof.
  intros Hin. apply list_elem_of_fmap in Hin as (b & -> & _).
  apply payload_has_payload.
Qed.

(** X7: when an image of the upstream response carries no payload, the
    call fails with [InternalError] before the first write: both passes over
    the response complete before the loop starts, so that no file is
    written, not even for the images that precede the defective one. *)
Theorem missing_payload_writes_nothing
    (E : Env) (args : value) (σ : State)
    (response : GenerateImagesResponse) (images : list GeneratedImage)
    (g : GeneratedImage) :
  isValidGenerateImageArgs args = true →
  generateImages E (upstream_request args) = Returns response →
  generatedImages response = Some images →
  g ∈ images →
  lacks_payload g →
  ∃ m σ',
    callTool E "generate_image" args σ =
      (Throws (McpError InternalError ("Image generation failed: " +:+ m)),
       σ')
    ∧ (m = msg_read_of_undefined ∨ m = msg_buffer_from_undefined)
    ∧ files σ' = files σ
    ∧ writes σ' = writes σ
    ∧ clock_reads σ' = clock_reads σ.
Proof.
  intros Hv Hup Himgs Hin Hlacks.
  assert (images ≠ []) as Hne by (intros ->; apply elem_of_nil in Hin; exact Hin).
  rewrite (callTool_persists E args σ response images Hv Hup Himgs Hne).
  destruct (persist E images (called σ (upstream_request args)))
    as [o σ1] eqn:Hp.
  apply persist_any in Hp as [(-> & _ & Ho)|(payloads & o1 & -> & _)].
  - destruct Ho as [-> | ->]; simpl; unfold throw.
    + exists msg_read_of_undefined, (called σ (upstream_request args)).
      split; [reflexivity|]. split; [left; reflexivity|].
      split; [reflexivity|]. split; reflexivity.
    + exists msg_buffer_from_undefined, (called σ (upstream_request args)).
      split; [reflexivity|]. split; [right; reflexivity|].
      split; [reflexivity|]. split; reflexivity.
  - destruct (payloads_have_payload payloads g Hin Hlacks).
Qed.

Lemma missing_payload_writes_nothing_witness :
  ∃ m σ',
    callTool (sample_env second_image_filtered ticking) "generate_image"
      a_cat initial_state =
      (Throws (McpError InternalError ("Image generation failed: " +:+ m)),
       σ')
    ∧ (m = msg_read_of_undefined ∨ m = msg_buffer_from_undefined)
    ∧ files σ' = files initial_state
    ∧ writes σ' = writes initial_state
    ∧ clock_reads σ' = clock_reads initial_state.
Proof.
  apply (missing_payload_writes_nothing
           (sample_env second_image_filtered ticking) a_cat initial_state
           {| generatedImages := Some [payload "aGk="; {| image := None |}] |}
           [payload "aGk="; {| image := None |}] {| image := None |}).
  - vm_compute. reflexivity.
  - reflexivity.
  - reflexivity.
  - apply list_elem_of_further, list_elem_of_here.
  - left. reflexivity.
Defined.

(** X8: when a write fails, the call fails with [InternalError] and a
    message that ends with the message of the failed write; the files
    written before it stay on disk with their contents, in order, and no
    later file is attempted. *)
Theorem failed_write_keeps_earlier_files
    (E : Env) (args : value) (σ σ' : State) (payloads : list string)
    (e : thrown) :
  isValidGenerateImageArgs args = true →
  payloads ≠ [] →
  generateImages E (upstream_request args)
    = Returns {| generatedImages := Some (payload <$> payloads) |} →
  callTool E "generate_image" args σ = (Throws e, σ') →
  ∃ k m b,
    k < length payloads
    ∧ payloads !! k = Some b
    ∧ writeFileSync_error E (files σ')
        (file_path (Date_now E (clock_reads σ + k)) k)
        (Buffer_from_base64 E b) = Some m
    ∧ e = McpError InternalError ("Image generation failed: " +:+ m)
    ∧ writes σ' =
        writes σ ++ zip (loop_paths E (clock_reads σ) 0 k)
                        (Buffer_from_base64 E <$> payloads)
    ∧ (∀ j c, j < k → payloads !! j = Some c →
         files σ' !! file_path (Date_now E (clock_reads σ + j)) j
         = Some (Buffer_from_base64 E c))
    ∧ clock_reads σ' = clock_reads σ + S k.
Proof.
  intros Hv Hne Hup Hrun.
  assert (payload <$> payloads ≠ []) as Hne'.
  { destruct payloads; [contradiction|discriminate]. }
  rewrite (callTool_persists E args σ _ _ Hv Hup eq_refl Hne') in Hrun.
  destruct (persist E (payload <$> payloads)
              (called σ (upstream_request args))) as [o σ1] eqn:Hp.
  apply persist_any in Hp
    as [(_ & (g & Hin & Hlacks) & _)|(payloads' & o1 & Heq & Hloop & Ho)].
  { destruct (payloads_have_payload payloads g Hin Hlacks). }
  apply payload_fmap_inj in Heq. subst payloads'.
  apply write_loop_any in Hloop
    as (k & Hk & Hw & _ & Hnew & _ & _ & Ho1). simpl in Hw, Hnew, Ho1.
  destruct o1 as [ps|e1].
  { subst o. discriminate Hrun. }
  subst o. destruct Ho1 as (Hlt & Hc & m & buf & Hb & Hm & ->).
  simpl in Hrun. unfold throw in Hrun. injection Hrun as <- <-.
  rewrite length_fmap in Hlt. rewrite list_lookup_fmap in Hb.
  destruct (payloads !! k) as [b|] eqn:Hbk; [|discriminate Hb].
  injection Hb as <-.
  exists k, m, b. split; [exact Hlt|]. split; [exact Hbk|].
  split; [exact Hm|]. split; [reflexivity|]. split; [exact Hw|].
  split; [|exact Hc].
  intros j c Hj Hc'. apply (Hnew j); [exact Hj|].
  rewrite list_lookup_fmap, Hc'. reflexivity.
Qed.

Lemma failed_write_keeps_earlier_files_witness :
  ∃ k m b,
    k < 2
    ∧ ["aGk="; "eW8="] !! k = Some b
    ∧ writeFileSync_error disk_full_after_one (files disk_full_state)
        (file_path (Date_now disk_full_after_one (0 + k)) k)
        (sample_base64 b) = Some m
    ∧ McpError InternalError
        "Image generation failed: ENOSPC: no space left on device, write"
      = McpError InternalError ("Image generation failed: " +:+ m)
    ∧ writes disk_full_state =
        [] ++ zip (loop_paths disk_full_after_one 0 0 k)
                  (sample_base64 <$> ["aGk="; "eW8="])
    ∧ (∀ j c, j < k → ["aGk="; "eW8="] !! j = Some c →
         files disk_full_state
           !! file_path (Date_now disk_full_after_one (0 + j)) j
         = Some (sample_base64 c))
    ∧ clock_reads disk_full_state = 0 + S k.
Proof.
  apply (failed_write_keeps_earlier_files disk_full_after_one a_cat
           initial_state disk_full_state ["aGk="; "eW8="]
           (McpError InternalError
              "Image generation failed: ENOSPC: no space left on device, write")).
  - vm_compute. reflexivity.
  - discriminate.
  - reflexivity.
  - vm_compute. reflexivity.
Defined.

(** ** What a call leaves alone *)

(** The state in which a call ends: the initial one, the one right after
    the upstream call, or the one in which persistence ended. *)
Lemma callTool_final_state (E : Env) name args σ :
  snd (callTool E name args σ) = σ
  ∨ snd (callTool E name args σ) = called σ (upstream_request args)
  ∨ ∃ images o,
      persist E images (called σ (upstream_request args))
      = (o, snd (callTool E name args σ)).
Proof.
  unfold callTool.
  destruct (String.eqb name "generate_image"); simpl; [|left; reflexivity].
  destruct (isValidGenerateImageArgs args); simpl; [|left; reflexivity].
  unfold try_catch. rewrite try_block_unfold. cbv zeta.
  destruct (generateImages E (upstream_request args)) as [resp|e].
  - destruct (generatedImages resp) as [[|g gs]|].
    + right; left. reflexivity.
    + right; right. exists (g :: gs).
      destruct (persist E (g :: gs) (called σ (upstream_request args)))
        as [[a|e] σ1].
      * exists (Returns a). reflexivity.
      * exists (Throws e). rewrite catch_block_state. reflexivity.
    + right; left. reflexivity.
  - right; left. rewrite catch_block_state. reflexivity.
Qed.

Lemma persist_files (E : Env) images σ o σ' :
  persist E images σ = (o, σ') →
  (∀ p, (∀ t n, p ≠ file_path t n) → files σ' !! p = files σ !! p)
  ∧ (∀ p, is_Some (files σ !! p) → is_Some (files σ' !! p)).
Proof.
  intros Hp.
  apply persist_any in Hp as [(-> & _)|(payloads & o1 & _ & Hloop & _)].
  - split; [reflexivity|tauto].
  - apply write_loop_any in Hloop as (k & _ & _ & _ & _ & Hold & Hmono & _).
    split; [|exact Hmono]. intros p Hp. apply Hold. intros t n _. apply Hp.
Qed.

Lemma callTool_files (E : Env) name args σ :
  (∀ p, (∀ t n, p ≠ file_path t n) →
     files (snd (callTool E name args σ)) !! p = files σ !! p)
  ∧ (∀ p, is_Some (files σ !! p) →
       is_Some (files (snd (callTool E name args σ)) !! p)).
Proof.
  destruct (callTool_final_state E name args σ)
    as [-> | [-> | (images & o & Hp)]].
  - split; [reflexivity|tauto].
  - split; [reflexivity|tauto].
  - apply persist_files in Hp. exact Hp.
Qed.




(** X10: a call never deletes a file: every path that held a file before
    the call holds one after it, whatever the outcome. *)
Theorem no_file_is_deleted
    (E : Env) (name : string) (args : value) (σ : State) :
  dom (files σ) ⊆ dom (files (snd (callTool E name args σ))).
Proof.
  intros p. rewrite !elem_of_dom. apply callTool_files.
Qed.

(** ** The shape of failures and of success *)

Lemma persist_throws (E : Env) images σ e σ' :
  persist E images σ = (Throws e, σ') → ∃ m, e = OtherError m.
Proof.
  intros Hp.
  apply persist_any in Hp as [(_ & _ & Ho)|(payloads & o1 & _ & Hloop & Ho)].
  - destruct Ho as [Ho|Ho]; injection Ho as ->; eauto.
  - apply write_loop_any in Hloop as (k & _ & _ & _ & _ & _ & _ & Ho1).
    destruct o1 as [ps|e1]; [discriminate Ho|]. injection Ho as ->.
    destruct Ho1 as (_ & _ & m & b & _ & _ & ->). eauto.
Qed.

(** X11: whatever goes wrong, the handler fails with an [McpError]: its
    code is [MethodNotFound], [InvalidParams] or [InternalError], unless the
    upstream call itself threw an [McpError], which is passed on as it
    is. *)
Theorem failures_are_protocol_errors
    (E : Env) (name : string) (args : value) (σ σ' : State) (e : thrown) :
  callTool E name args σ = (Throws e, σ') →
  ∃ code message,
    e = McpError code message
    ∧ (code = MethodNotFound ∨ code = InvalidParams ∨ code = InternalError
       ∨ generateImages E (upstream_request args)
         = Throws (McpError code message)).
Proof.
  unfold callTool.
  destruct (String.eqb name "generate_image"); simpl.
  2: { unfold throw. intros [= <- <-].
       do 2 eexists. split; [reflexivity|]. left. reflexivity. }
  destruct (isValidGenerateImageArgs args); simpl.
  2: { unfold throw. intros [= <- <-].
       do 2 eexists. split; [reflexivity|]. right; left. reflexivity. }
  unfold try_catch. rewrite try_block_unfold. cbv zeta.
  destruct (generateImages E (upstream_request args)) as [resp|e0].
  - assert (∃ code message,
      McpError InternalError "No images generated." = McpError code message
      ∧ (code = MethodNotFound ∨ code = InvalidParams ∨ code = InternalError
         ∨ Returns resp = Throws (McpError code message))) as Hnone.
    { do 2 eexists. split; [reflexivity|]. right; right; left. reflexivity. }
    destruct (generatedImages resp) as [[|g gs]|].
    + intros [= <- <-]. exact Hnone.
    + destruct (persist E (g :: gs) (called σ (upstream_request args)))
        as [[a|e1] σ1] eqn:Hp; [discriminate|].
      apply persist_throws in Hp as [m ->]. simpl. unfold throw.
      intros [= <- <-].
      do 2 eexists. split; [reflexivity|]. right; right; left. reflexivity.
    + intros [= <- <-]. exact Hnone.
  - destruct e0 as [code message|message|message]; simpl; unfold throw;
      intros [= <- <-]; do 2 eexists; (split; [reflexivity|]).
    + right; right; right. reflexivity.
    + right; right; left. reflexivity.
    + right; right; left. reflexivity.
Qed.

Lemma failures_are_protocol_errors_witness :
  ∃ code message,
    McpError InternalError "Image generation failed: 429 quota exceeded"
      = McpError code message
    ∧ (code = MethodNotFound ∨ code = InvalidParams ∨ code = InternalError
       ∨ generateImages (sample_env quota_exceeded ticking)
           (upstream_request a_cat)
         = Throws (McpError code message)).
Proof.
  apply (failures_are_protocol_errors (sample_env quota_exceeded ticking)
           "generate_image" a_cat initial_state
           (called initial_state (upstream_request a_cat))
           (McpError InternalError
              "Image generation failed: 429 quota exceeded")).
  vm_compute. reflexivity.
Defined.



(** ** The earlier handler *)

Section Versions.
Context (E : Env).

(** The course of a validated call, for both handlers. *)
Lemma callTool_unfold args σ :
  isValidGenerateImageArgs args = true →
  callTool E "generate_image" args σ =
  match generateImages E (upstream_request args) with
  | Throws e => catch_block e (called σ (upstream_request args))
  | Returns response =>
      match generatedImages response with
      | None | Some [] =>
          (Throws (McpError InternalError "No images generated."),
           called σ (upstream_request args))
      | Some images =>
          match persist E images (called σ (upstream_request args)) with
          | (Returns a, σ') => (Returns a, σ')
          | (Throws e, σ') => catch_block e σ'
          end
      end
  end.
Proof.
  intros Hv. rewrite callTool_valid by assumption.
  unfold try_catch. rewrite try_block_unfold. cbv zeta.
  destruct (generateImages E (upstream_request args)) as [resp|e];
    [|reflexivity].
  destruct (generatedImages resp) as [[|g gs]|]; reflexivity.
Qed.

Lemma legacy_callTool_unfold args σ :
  Legacy.isValidGenerateImageArgs args = true →
  Legacy.callTool E "generate_image" args σ =
  match generateImages E (Legacy.upstream_request args) with
  | Throws e => catch_block e (called σ (Legacy.upstream_request args))
  | Returns response =>
      match generatedImages response with
      | None | Some [] =>
          (Throws (McpError InternalError "No images generated."),
           called σ (Legacy.upstream_request args))
      | Some images =>
          match persist E images (called σ (Legacy.upstream_request args))
          with
          | (Returns a, σ') => (Returns a, σ')
          | (Throws e, σ') => catch_block e σ'
          end
      end
  end.
Proof.
  intros Hv. unfold Legacy.callTool. rewrite Hv. simpl.
  unfold try_catch, Legacy.try_block. unfold_monad.
  unfold call_generateImages.
  fold (Legacy.upstream_request args).
  fold (called σ (Legacy.upstream_request args)).
  destruct (generateImages E (Legacy.upstream_request args)) as [resp|e];
    [|reflexivity].
  destruct (generatedImages resp) as [[|g gs]|]; reflexivity.
Qed.

(** The outcome of the two passes over the response does not depend on the
    state. *)
Lemma mapM_read_imageBytes_fst images σ1 σ2 :
  fst (mapM read_imageBytes images σ1) = fst (mapM read_imageBytes images σ2).
Proof.
  induction images as [|g gs IH]; [reflexivity|]. simpl. unfold_monad.
  unfold read_imageBytes at 1 3. destruct (image g); simpl; [|reflexivity].
  destruct (mapM read_imageBytes gs σ1) as [[l1|e1] s1],
           (mapM read_imageBytes gs σ2) as [[l2|e2] s2];
    simpl in *; congruence.
Qed.

Lemma mapM_Buffer_from_fst l σ1 σ2 :
  fst (mapM (Buffer_from E) l σ1) = fst (mapM (Buffer_from E) l σ2).
Proof.
  induction l as [|o l IH]; [reflexivity|]. simpl. unfold_monad.
  unfold Buffer_from at 1 3. destruct o; simpl; [|reflexivity].
  destruct (mapM (Buffer_from E) l σ1) as [[l1|e1] s1],
           (mapM (Buffer_from E) l σ2) as [[l2|e2] s2];
    simpl in *; congruence.
Qed.

(** The loop reads and changes the clock, the files and the history of the
    writes only. *)
Lemma write_loop_disk bufs i acc σ1 σ2 :
  disk σ1 = disk σ2 →
  fst (write_loop E bufs i acc σ1) = fst (write_loop E bufs i acc σ2)
  ∧ disk (snd (write_loop E bufs i acc σ1))
    = disk (snd (write_loop E bufs i acc σ2)).
Proof.
  revert i acc σ1 σ2. induction bufs as [|b bs IH]; intros i acc σ1 σ2 Hd.
  - simpl. unfold_monad. simpl. split; [reflexivity|exact Hd].
  - destruct σ1 as [u1 c1 f1 w1], σ2 as [u2 c2 f2 w2].
    unfold disk in Hd. simpl in Hd. injection Hd as -> -> ->.
    simpl. unfold_monad. unfold read_Date_now, writeFileSync. simpl.
    destruct (writeFileSync_error E f2 (file_path (Date_now E c2) i) b);
      [split; reflexivity|].
    apply IH. reflexivity.
Qed.

Lemma persist_disk images σ1 σ2 :
  disk σ1 = disk σ2 →
  fst (persist E images σ1) = fst (persist E images σ2)
  ∧ disk (snd (persist E images σ1)) = disk (snd (persist E images σ2)).
Proof.
  intros Hd. unfold persist. unfold_monad.
  pose proof (mapM_read_imageBytes_fst images σ1 σ2) as Hf.
  pose proof (mapM_read_imageBytes_state images σ1) as Hs1.
  pose proof (mapM_read_imageBytes_state images σ2) as Hs2.
  destruct (mapM read_imageBytes images σ1) as [o1 s1],
           (mapM read_imageBytes images σ2) as [o2 s2].
  simpl in Hf, Hs1, Hs2. subst o2 s1 s2.
  destruct o1 as [l|e]; [|split; [reflexivity|exact Hd]].
  pose proof (mapM_Buffer_from_fst l σ1 σ2) as Hf.
  pose proof (mapM_Buffer_from_state E l σ1) as Hs1.
  pose proof (mapM_Buffer_from_state E l σ2) as Hs2.
  destruct (mapM (Buffer_from E) l σ1) as [o1 s1],
           (mapM (Buffer_from E) l σ2) as [o2 s2].
  simpl in Hf, Hs1, Hs2. subst o2 s1 s2.
  destruct o1 as [bufs|e]; [|split; [reflexivity|exact Hd]].
  destruct (write_loop_disk bufs 0 [] σ1 σ2 Hd) as [Hf Hd'].
  destruct (write_loop E bufs 0 [] σ1) as [o1 s1],
           (write_loop E bufs 0 [] σ2) as [o2 s2].
  simpl in Hf, Hd'. subst o2.
  destruct o1; split; [reflexivity|exact Hd'|reflexivity|exact Hd'].
Qed.

Lemma catch_block_fst e σ1 σ2 :
  fst (catch_block e σ1) = fst (catch_block e σ2).
Proof. destruct e; reflexivity. Qed.

End Versions.

(** X13: the later handler extends the earlier one conservatively.
    Arguments that the later validator accepts are accepted by the earlier
    one, and when the upstream service answers the two requests alike, the
    two handlers end with the same result, the same files, the same history
    of writes and the same number of clock readings. *)
Theorem later_handler_agrees_with_earlier
    (E : Env) (args : value) (σ : State) :
  isValidGenerateImageArgs args = true →
  generateImages E (upstream_request args)
    = generateImages E (Legacy.upstream_request args) →
  Legacy.isValidGenerateImageArgs args = true
  ∧ fst (callTool E "generate_image" args σ)
    = fst (Legacy.callTool E "generate_image" args σ)
  ∧ disk (snd (callTool E "generate_image" args σ))
    = disk (snd (Legacy.callTool E "generate_image" args σ)).
Proof.
  intros Hv Hsame.
  assert (Legacy.isValidGenerateImageArgs args = true) as Hv'.
  { apply isValidGenerateImageArgs_spec in Hv as (Ho & Hn & Hp & Hi & _).
    unfold Legacy.isValidGenerateImageArgs.
    rewrite !andb_true_iff, optional_test, !String.eqb_eq.
    repeat split; try assumption. destruct args; simpl; congruence. }
  split; [exact Hv'|].
  rewrite (callTool_unfold E args σ Hv).
  rewrite (legacy_callTool_unfold E args σ Hv'). rewrite <- Hsame.
  destruct (generateImages E (upstream_request args)) as [resp|e].
  - destruct (generatedImages resp) as [[|g gs]|];
      try (split; reflexivity).
    destruct (persist_disk E (g :: gs) (called σ (upstream_request args))
                (called σ (Legacy.upstream_request args)) eq_refl)
      as [Hf Hd].
    destruct (persist E (g :: gs) (called σ (upstream_request args)))
      as [o1 s1],
      (persist E (g :: gs) (called σ (Legacy.upstream_request args)))
      as [o2 s2].
    simpl in Hf, Hd. subst o2.
    destruct o1 as [a|e]; [split; [reflexivity|exact Hd]|].
    split; [apply catch_block_fst|].
    rewrite (surjective_pairing (catch_block e s1)),
      (surjective_pairing (catch_block e s2)). simpl.
    rewrite !catch_block_state. exact Hd.
  - split; [apply catch_block_fst|].
    rewrite (surjective_pairing (catch_block e _)),
      (surjective_pairing (catch_block e (called σ (Legacy.upstream_request args)))).
    simpl. rewrite !catch_block_state. reflexivity.
Qed.

Lemma later_handler_agrees_with_earlier_witness :
  Legacy.isValidGenerateImageArgs a_cat = true
  ∧ fst (callTool (sample_env two_images ticking) "generate_image" a_cat
           initial_state)
    = fst (Legacy.callTool (sample_env two_images ticking) "generate_image"
             a_cat initial_state)
  ∧ disk (snd (callTool (sample_env two_images ticking) "generate_image"
                 a_cat initial_state))
    = disk (snd (Legacy.callTool (sample_env two_images ticking)
                   "generate_image" a_cat initial_state)).
Proof.
  apply (later_handler_agrees_with_earlier (sample_env two_images ticking)
           a_cat initial_state).
  - vm_compute. reflexivity.
  - reflexivity.
Defined.

(** X14: the earlier handler persists like the later one: a successful
    call whose upstream response lists N images has written N files under
    N different names, the i-th of which holds the decoded i-th payload,
    and reports the N names in order. *)
Theorem legacy_one_file_per_upstream_image
    (E : Env) (args : value) (σ σ' : State)
    (response : GenerateImagesResponse) (images : list GeneratedImage)
    (res : CallToolResult) :
  Legacy.isValidGenerateImageArgs args = true →
  generateImages E (Legacy.upstream_request args) = Returns response →
  generatedImages response = Some images →
  Legacy.callTool E "generate_image" args σ = (Returns res, σ') →
  ∃ payloads paths,
    images = payload <$> payloads
    ∧ 1 ≤ length images
    ∧ length paths = length images
    ∧ NoDup paths
    ∧ content res =
        [{| type := "text";
            text := "Generated images saved to: "
                    +:+ String.concat ", " paths |}]
    ∧ writes σ' = writes σ ++ zip paths (Buffer_from_base64 E <$> payloads)
    ∧ ∀ i p, paths !! i = Some p →
        ∃ b, payloads !! i = Some b
           ∧ files σ' !! p = Some (Buffer_from_base64 E b).
Proof.
  intros Hv Hup Himgs Hrun.
  destruct (legacy_callTool_returns E args σ response images res σ'
              Hv Hup Himgs Hrun)
    as (payloads & -> & Hne & Hnd & Hres & Hw & Hfiles).
  exists payloads, (loop_paths E (clock_reads σ) 0 (length payloads)).
  rewrite length_fmap, length_loop_paths.
  split; [reflexivity|].
  split; [destruct payloads; [contradiction|simpl; lia]|].
  split; [reflexivity|]. split; [exact Hnd|]. split; [exact Hres|].
  split; [exact Hw|].
  intros i p Hp.
  assert (i < length payloads) as Hi.
  { apply lookup_lt_Some in Hp. rewrite length_loop_paths in Hp. exact Hp. }
  rewrite loop_paths_lookup in Hp by exact Hi. injection Hp as <-.
  destruct (lookup_lt_is_Some_2 payloads i Hi) as [b Hb].
  exists b. split; [exact Hb|]. apply Hfiles, Hb.
Qed.

Lemma legacy_one_file_per_upstream_image_witness :
  ∃ payloads paths,
    [payload "aGk="; payload "eW8="] = payload <$> payloads
    ∧ 1 ≤ 2
    ∧ length paths = 2
    ∧ NoDup paths
    ∧ content a_cat_result =
        [{| type := "text";
            text := "Generated images saved to: "
                    +:+ String.concat ", " paths |}]
    ∧ writes legacy_final_state =
        [] ++ zip paths (sample_base64 <$> payloads)
    ∧ ∀ i p, paths !! i = Some p →
        ∃ b, payloads !! i = Some b
           ∧ files legacy_final_state !! p = Some (sample_base64 b).
Proof.
  apply (legacy_one_file_per_upstream_image (sample_env two_images ticking)
           a_cat initial_state legacy_final_state
           {| generatedImages := Some [payload "aGk="; payload "eW8="] |}
           [payload "aGk="; payload "eW8="] a_cat_result).
  - vm_compute. reflexivity.
  - reflexivity.
  - reflexivity.
  - vm_compute. reflexivity.
Defined.

(** X15: the earlier validator rejects arguments exactly when they are
    [null], not an object, without a string [prompt], or hold a
    [numberOfImages] that is not a number; it does not look at the three
    textual members, which the later validator tests. *)
Theorem legacy_rejected_iff (args : value) :
  Legacy.isValidGenerateImageArgs args = false
  ↔ legacy_invalid_arguments args.
Proof.
  unfold Legacy.isValidGenerateImageArgs, legacy_invalid_arguments,
    wrong_type.
  rewrite !andb_false_iff. split.
  - intros [[[H|H]|H]|H].
    + right; left. apply String.eqb_neq, H.
    + left. apply is_not_null_false, H.
    + right; right; left. apply String.eqb_neq, H.
    + right; right; right. apply optional_test_false, H.
  - intros [->|[H|[H|[H1 H2]]]].
    + left; left; right. reflexivity.
    + left; left; left. apply String.eqb_neq, H.
    + left; right. apply String.eqb_neq, H.
    + right. apply orb_false_iff. split.
      * destruct (get args "numberOfImages"); try reflexivity. contradiction.
      * apply String.eqb_neq, H2.
Qed.

Example legacy_accepts_numeric_aspect :
  Legacy.isValidGenerateImageArgs numeric_aspect = true
  ∧ isValidGenerateImageArgs numeric_aspect = false.
Proof. vm_compute. split; reflexivity. Qed.

(** ** Start-up *)

Lemma truthy_VStr s : truthy (VStr s) = true ↔ s ≠ "".
Proof. simpl. rewrite negb_true_iff, String.eqb_neq. reflexivity. Qed.

(** X16: a truthy [GEMINI_API_KEY] of the configuration object wins over
    the environment: the constructor keeps it, whatever the environment
    holds. *)
Theorem config_key_takes_precedence
    (props : gmap string value) (env : gmap string string) (v : value) :
  props !! "GEMINI_API_KEY" = Some v →
  truthy v = true →
  constructor_GEMINI_API_KEY (VObj props) env = Returns v.
Proof.
  intros Hk Hv. unfold constructor_GEMINI_API_KEY. simpl get. rewrite Hk.
  simpl default. unfold or_else. rewrite Hv. simpl. rewrite Hv. reflexivity.
Qed.

Lemma config_key_takes_precedence_witness :
  constructor_GEMINI_API_KEY
    (VObj {[ "GEMINI_API_KEY" := VStr "from-config" ]})
    {[ "GEMINI_API_KEY" := "from-environment" ]}
  = Returns (VStr "from-config").
Proof.
  apply (config_key_takes_precedence
           {[ "GEMINI_API_KEY" := VStr "from-config" ]}
           {[ "GEMINI_API_KEY" := "from-environment" ]}
           (VStr "from-config")).
  - vm_compute. reflexivity.
  - reflexivity.
Defined.



(** ** The schema and the defaults *)

(** X18: for each of the three enumerated members, the value that the
    handler sends upstream when a validated call omits the member is one
    that the advertised schema lists as allowed. *)
Theorem applied_default_is_an_advertised_value
    (E : Env) (args : value) (σ : State) (k : string) :
  isValidGenerateImageArgs args = true →
  k ∈ enumerated_keys →
  get args k = VUndefined →
  ∃ v,
    upstream_calls (snd (callTool E "generate_image" args σ))
      = upstream_calls σ ++ [upstream_request args]
    ∧ config (upstream_request args) !! k = Some v
    ∧ v ∈ enum_of k.
Proof.
  intros Hv Hk Hu. unfold enumerated_keys in Hk.
  rewrite !elem_of_cons, elem_of_nil in Hk.
  destruct Hk as [->|[->|[->|[]]]].
  - exists (VStr "9:16"). split; [apply callTool_upstream_calls, Hv|].
    rewrite config_aspectRatio, Hu. split; [reflexivity|].
    assert (enum_of "aspectRatio"
            = [VStr "1:1"; VStr "3:4"; VStr "4:3"; VStr "9:16"; VStr "16:9"])
      as -> by (vm_compute; reflexivity).
    do 3 apply list_elem_of_further. apply list_elem_of_here.
  - exists (VStr "2K"). split; [apply callTool_upstream_calls, Hv|].
    rewrite config_sampleImageSize, Hu. split; [reflexivity|].
    assert (enum_of "sampleImageSize" = [VStr "1K"; VStr "2K"])
      as -> by (vm_compute; reflexivity).
    apply list_elem_of_further, list_elem_of_here.
  - exists (VStr "allow_adult"). split; [apply callTool_upstream_calls, Hv|].
    rewrite config_personGeneration, Hu. split; [reflexivity|].
    assert (enum_of "personGeneration"
            = [VStr "dont_allow"; VStr "allow_adult"; VStr "allow_all"])
      as -> by (vm_compute; reflexivity).
    apply list_elem_of_further, list_elem_of_here.
Qed.

Lemma applied_default_is_an_advertised_value_witness :
  ∃ v,
    upstream_calls
      (snd (callTool (sample_env two_images ticking) "generate_image"
              only_prompt initial_state))
      = upstream_calls initial_state ++ [upstream_request only_prompt]
    ∧ config (upstream_request only_prompt) !! "personGeneration" = Some v
    ∧ v ∈ enum_of "personGeneration".
Proof.
  apply (applied_default_is_an_advertised_value
           (sample_env two_images ticking) only_prompt initial_state
           "personGeneration").
  - vm_compute. reflexivity.
  - do 2 apply list_elem_of_further. apply list_elem_of_here.
  - vm_compute. reflexivity.
Defined.

(** ** Two edge cases of validation *)

(** X19: an optional member that is present with the value [null] is not
    taken as omitted: the call is rejected with [InvalidParams], and
    nothing is sent upstream. *)
Theorem null_member_is_rejected
    (E : Env) (args : value) (σ : State) (k : string) :
  k ∈ optional_keys →
  get args k = VNull →
  callTool E "generate_image" args σ =
    (Throws (McpError InvalidParams "Invalid generate_image arguments"), σ).
Proof.
  intros Hk Hnull.
  assert (invalid_arguments args) as Hbad.
  { unfold invalid_arguments, wrong_type. unfold optional_keys in Hk.
    rewrite !elem_of_cons, elem_of_nil in Hk.
    destruct Hk as [->|[->|[->|[->|[]]]]]; rewrite Hnull.
    - do 4 right. left. split; discriminate.
    - do 5 right. left. split; discriminate.
    - do 6 right. left. split; discriminate.
    - do 7 right. split; discriminate. }
  apply invalid_arguments_rejected in Hbad.
  unfold callTool. rewrite Hbad. reflexivity.
Qed.

Lemma null_member_is_rejected_witness :
  callTool (sample_env two_images ticking) "generate_image" null_aspect
    initial_state =
    (Throws (McpError InvalidParams "Invalid generate_image arguments"),
     initial_state).
Proof.
  apply (null_member_is_rejected (sample_env two_images ticking) null_aspect
           initial_state "aspectRatio").
  - apply list_elem_of_further, list_elem_of_here.
  - vm_compute. reflexivity.
Defined.

(** X20: the schema requires [prompt] only, and the handler agrees: an
    object that holds nothing but a [prompt], whatever string it is, is
    validated, and its one request carries that prompt, the fixed model
    and the four defaults. *)
Theorem prompt_alone_suffices (E : Env) (s : string) (σ : State) :
  get (get tool_descriptor "inputSchema") "required" = VArr [VStr "prompt"]
  ∧ isValidGenerateImageArgs (obj [("prompt", VStr s)]) = true
  ∧ upstream_calls
      (snd (callTool E "generate_image" (obj [("prompt", VStr s)]) σ))
    = upstream_calls σ ++
      [{| model := "imagen-4.0-generate-001";
          prompt := VStr s;
          config :=
            {[ "numberOfImages" := VNum 1; "aspectRatio" := VStr "9:16";
               "sampleImageSize" := VStr "2K";
               "personGeneration" := VStr "allow_adult" ]} |}].
Proof.
  split; [vm_compute; reflexivity|].
  assert (∀ k, k ≠ "prompt" → get (obj [("prompt", VStr s)]) k = VUndefined)
    as Hother.
  { intros k Hk. unfold obj. simpl.
    rewrite lookup_insert_ne by (intros Heq; apply Hk; symmetry; exact Heq).
    rewrite lookup_empty. reflexivity. }
  assert (get (obj [("prompt", VStr s)]) "prompt" = VStr s) as Hprompt.
  { unfold obj. simpl. rewrite lookup_insert_eq. reflexivity. }
  assert (isValidGenerateImageArgs (obj [("prompt", VStr s)]) = true) as Hv.
  { unfold isValidGenerateImageArgs. rewrite Hprompt.
    rewrite !Hother by discriminate. reflexivity. }
  split; [exact Hv|]. rewrite callTool_upstream_calls by exact Hv.
  reflexivity.
Qed.
